(** * Zed-AI chat client: the send path of [src/App.tsx]

    A shallow embedding of the React component [App] of [src/App.tsx]:
    its state hooks, the two request helpers [makeGraphQLRequest] and
    [makeRESTRequest], and the handler [sendMessage], followed by the
    properties of the send path.

    The browser and the JavaScript engine are the environment.  Every
    effect of the handler (reading the clock, a [fetch], a state setter,
    [alert], the console) is a node of a program tree; the tree is run
    either in one go against a scripted environment ([run]) or event by
    event, with the replies of the network arriving between user events
    ([step]).

    Beside the send path the file covers what the render makes of the
    state for the controls (the send button, the text area, the typing
    indicator, the welcome block), the keyboard handler
    [handleKeyPress], and the older component, which had two providers
    and made one REST call per send. *)

From Stdlib Require Import List String Ascii Bool Arith ZArith NArith Lia.
From Stdlib Require Import DecimalString DecimalPos DecimalZ SpecFloat.
Import ListNotations.

Set Implicit Arguments.
Set Warnings "-register-all".
Local Open Scope string_scope.
Local Open Scope list_scope.

(** ** JavaScript strings

    A JavaScript string is a sequence of 16-bit code units.  String
    literals of the source are written as Rocq strings (UTF-8 bytes) and
    turned into code units by [utf16]. *)

Definition jsstring := list N.

Definition cont (a : ascii) : N := N.land (N_of_ascii a) 63.

Definition units_of_code_point (cp : N) : list N :=
  if (cp <? 65536)%N then [cp]
  else let c := (cp - 65536)%N in
       [(55296 + N.shiftr c 10)%N; (56320 + N.land c 1023)%N].

Fixpoint utf16 (s : string) : jsstring :=
  match s with
  | EmptyString => []
  | String a s1 =>
    let b := N_of_ascii a in
    if (b <? 128)%N then b :: utf16 s1
    else match s1 with
    | EmptyString => [65533%N]
    | String a2 s2 =>
      if (b <? 224)%N then
        (N.shiftl (N.land b 31) 6 + cont a2)%N :: utf16 s2
      else match s2 with
      | EmptyString => [65533%N]
      | String a3 s3 =>
        if (b <? 240)%N then
          (N.shiftl (N.land b 15) 12 + N.shiftl (cont a2) 6 + cont a3)%N
            :: utf16 s3
        else match s3 with
        | EmptyString => [65533%N]
        | String a4 s4 =>
          units_of_code_point
            (N.shiftl (N.land b 7) 18 + N.shiftl (cont a2) 12
             + N.shiftl (cont a3) 6 + cont a4)%N
            ++ utf16 s4
        end
      end
    end
  end.

Arguments utf16 : simpl never.

Definition jsstring_eq_dec : forall s t : jsstring, {s = t} + {s <> t} :=
  list_eq_dec N.eq_dec.

Definition jsstring_eqb (s t : jsstring) : bool :=
  if jsstring_eq_dec s t then true else false.

(** [String.prototype.trim]: strips WhiteSpace and LineTerminator code
    points (ECMA-262, 12.2 and 12.3) from both ends.  All of them are in
    the Basic Multilingual Plane, hence single code units. *)
Definition isWhiteSpace (c : N) : bool :=
  ((9 <=? c) && (c <=? 13)            (* TAB, LF, VT, FF, CR *)
   || (c =? 32) || (c =? 160)         (* SP, NBSP *)
   || (c =? 5760)                     (* U+1680 *)
   || (8192 <=? c) && (c <=? 8202)    (* U+2000 .. U+200A *)
   || (c =? 8232) || (c =? 8233)      (* LS, PS *)
   || (c =? 8239) || (c =? 8287)      (* U+202F, U+205F *)
   || (c =? 12288) || (c =? 65279))%N (* U+3000, U+FEFF *).

Fixpoint trimStart (s : jsstring) : jsstring :=
  match s with
  | c :: s' => if isWhiteSpace c then trimStart s' else s
  | [] => []
  end.

Definition trimEnd (s : jsstring) : jsstring := rev (trimStart (rev s)).

Definition trim (s : jsstring) : jsstring := trimEnd (trimStart s).

(** [Number.prototype.toString] on an integer (the clock readings and
    HTTP status codes of this program), as decimal digits. *)
Definition decimal (z : Z) : jsstring :=
  utf16 (NilZero.string_of_int (Z.to_int z)).

(** [String.prototype.toUpperCase], on the ASCII letters; the only
    receiver in this program is a provider name. *)
Definition toUpperCase (s : jsstring) : jsstring :=
  map (fun c => if ((97 <=? c) && (c <=? 122))%N then (c - 32)%N else c) s.

(** ** JavaScript values

    What [response.json()] can produce.  A number is an IEEE binary64
    value; [JObj props] is the object whose property [k] is
    [lookup k props]; [undefined], which only arises from a property
    read, is the [None] of [JsVal]. *)

Inductive JSON : Type :=
| JNull
| JBool (b : bool)
| JNum (x : spec_float)
| JStr (s : jsstring)
| JArr (elems : list JSON)
| JObj (props : list (jsstring * JSON)).

Definition JsVal := option JSON.

Definition undefined : JsVal := None.

(** An [Error] instance ([Error], [TypeError], [SyntaxError], ...), and
    what a [throw] or a rejected promise can carry. *)
Record JsError := mkError { name : jsstring; message : jsstring }.

Inductive Thrown : Type :=
| ThrownError (e : JsError)      (* [instanceof Error] holds *)
| ThrownOther (v : JsVal).

Definition Error (msg : jsstring) : Thrown :=
  ThrownError (mkError (utf16 "Error") msg).

Definition TypeError (msg : jsstring) : Thrown :=
  ThrownError (mkError (utf16 "TypeError") msg).

Definition number_of_nat (n : nat) : spec_float :=
  match n with
  | O => S754_zero false
  | S _ => S754_finite false (Pos.of_nat n) 0
  end.

(** ToBoolean. *)
Definition truthy (v : JsVal) : bool :=
  match v with
  | None | Some JNull => false
  | Some (JBool b) => b
  | Some (JNum (S754_zero _)) | Some (JNum S754_nan) => false
  | Some (JNum _) => true
  | Some (JStr s) => match s with [] => false | _ => true end
  | Some (JArr _) | Some (JObj _) => true
  end.

(** [0 < x] on numbers. *)
Definition positive_number (x : spec_float) : bool :=
  match x with
  | S754_infinity false | S754_finite false _ _ => true
  | _ => false
  end.

Fixpoint lookup (k : jsstring) (props : list (jsstring * JSON)) : JsVal :=
  match props with
  | [] => None
  | (k', v) :: rest => if jsstring_eqb k k' then Some v else lookup k rest
  end.

(** ** The engine

    What ECMA-262 leaves to the implementation, or what is not unfolded
    here: the wording of the [TypeError]s the engine raises, and the two
    conversions between numbers and strings. *)

Inductive Nullish := IsUndefined | IsNull.

Inductive PropKey := Named (k : jsstring) | Index (i : nat).

Record Engine := {
  cannotRead : Nullish -> PropKey -> jsstring;
  notAFunction : jsstring -> jsstring;
  cannotConvert : jsstring;
  NumberToString : spec_float -> jsstring;
  StringToNumber : jsstring -> spec_float
}.

(** ** Programs

    The handler is [async]: it runs until a [fetch] is awaited and is
    resumed when the promise settles.  A program is a tree whose nodes
    are the effects it performs; [Await] is where it is suspended. *)

Inductive Role := user | assistant.

(** [interface Message].  [content] is declared a string; the content of
    an assistant message is read from the decoded reply, which is [any]
    and is not checked, so it is whatever value the reply carried.  The
    clock readings are integers, printed in decimal by [toString]. *)
Record Message := {
  id : jsstring;
  role : Role;
  content : JSON;
  timestamp : Z
}.

Record RequestInit := {
  method : jsstring;
  headers : list (jsstring * jsstring);
  body : JSON                      (* the argument of [JSON.stringify] *)
}.

Record Request := { url : jsstring; init : RequestInit }.

(** A [Response]: its status, and how [response.json()] settles. *)
Record Response := { status : N; json : JsError + JSON }.

Definition ok (r : Response) : bool :=
  ((200 <=? status r) && (status r <=? 299))%N.

(** How the promise of a [fetch] settles: the Fetch standard rejects
    with a [TypeError] (or an [AbortError]), both [Error] instances. *)
Inductive FetchOutcome :=
| Rejected (e : JsError)
| Resolved (r : Response).

Inductive Eff : Type -> Type :=
| DateNow : Eff Z
| SetMessages (f : list Message -> list Message) : Eff unit
| SetInput (s : jsstring) : Eff unit
| SetIsLoading (b : bool) : Eff unit
| Alert (s : jsstring) : Eff unit
| ConsoleWarn (label : jsstring) (e : Thrown) : Eff unit
| ConsoleError (label : jsstring) (e : Thrown) : Eff unit.

Inductive Prog (A : Type) : Type :=
| Ret (a : A)
| Throw (e : Thrown)
| Do {X : Type} (o : Eff X) (k : X -> Prog A)
| Await (req : Request) (k : FetchOutcome -> Prog A).

Arguments Ret {A} a.
Arguments Throw {A} e.
Arguments Do {A X} o k.
Arguments Await {A} req k.

Fixpoint bind {A B} (p : Prog A) (f : A -> Prog B) : Prog B :=
  match p with
  | Ret a => f a
  | Throw e => Throw e
  | Do o k => Do o (fun x => bind (k x) f)
  | Await req k => Await req (fun x => bind (k x) f)
  end.

(** [try { p } catch (e) { h e }] *)
Fixpoint try_catch {A} (p : Prog A) (h : Thrown -> Prog A) : Prog A :=
  match p with
  | Ret a => Ret a
  | Throw e => h e
  | Do o k => Do o (fun x => try_catch (k x) h)
  | Await req k => Await req (fun x => try_catch (k x) h)
  end.

(** [try { p } finally { f }], for an [f] that completes normally. *)
Fixpoint try_finally {A} (p : Prog A) (f : Prog unit) : Prog A :=
  match p with
  | Ret a => bind f (fun _ => Ret a)
  | Throw e => bind f (fun _ => Throw e)
  | Do o k => Do o (fun x => try_finally (k x) f)
  | Await req k => Await req (fun x => try_finally (k x) f)
  end.

Declare Scope prog_scope.
Delimit Scope prog_scope with prog.
Notation "x <- p ;; q" := (bind p (fun x => q))
  (at level 100, p at next level, right associativity) : prog_scope.
Notation "p ;; q" := (bind p (fun _ => q))
  (at level 100, right associativity) : prog_scope.
Local Open Scope prog_scope.

Definition perform {X} (o : Eff X) : Prog X := Do o Ret.
Definition fetch (req : Request) : Prog FetchOutcome := Await req Ret.

(** [await p]: a rejected promise throws its reason. *)
Definition settle {A} (r : JsError + A) : Prog A :=
  match r with
  | inl e => Throw (ThrownError e)
  | inr a => Ret a
  end.

(** ** Reading values *)

Section WithEngine.

Variable E : Engine.

Definition nullish (v : JsVal) : option Nullish :=
  match v with
  | None => Some IsUndefined
  | Some JNull => Some IsNull
  | Some _ => None
  end.

(** [v.k], for the property names this program reads ([errors], [data],
    [chatCompletion], [choices], [message], [content], [length]): of
    these only [length] is found on a prototype, that of strings and
    arrays. *)
Definition get (v : JsVal) (k : jsstring) : Prog JsVal :=
  match v with
  | None => Throw (TypeError (cannotRead E IsUndefined (Named k)))
  | Some JNull => Throw (TypeError (cannotRead E IsNull (Named k)))
  | Some (JObj props) => Ret (lookup k props)
  | Some (JArr l) =>
    Ret (if jsstring_eqb k (utf16 "length")
         then Some (JNum (number_of_nat (List.length l))) else None)
  | Some (JStr s) =>
    Ret (if jsstring_eqb k (utf16 "length")
         then Some (JNum (number_of_nat (List.length s))) else None)
  | Some (JBool _) | Some (JNum _) => Ret None
  end.

(** [v[i]] *)
Definition index (v : JsVal) (i : nat) : Prog JsVal :=
  match v with
  | None => Throw (TypeError (cannotRead E IsUndefined (Index i)))
  | Some JNull => Throw (TypeError (cannotRead E IsNull (Index i)))
  | Some (JObj props) => Ret (lookup (decimal (Z.of_nat i)) props)
  | Some (JArr l) => Ret (nth_error l i)
  | Some (JStr s) => Ret (option_map (fun c => JStr [c]) (nth_error s i))
  | Some (JBool _) | Some (JNum _) => Ret None
  end.

(** [v?.rest]: the rest of the chain is skipped on [undefined] and [null]. *)
Definition optional (v : JsVal) (rest : JsVal -> Prog JsVal) : Prog JsVal :=
  match nullish v with
  | Some _ => Ret undefined
  | None => rest v
  end.

(** [a || b] *)
Definition or_else (a : JsVal) (b : JSON) : JSON :=
  match a with
  | Some v => if truthy a then v else b
  | None => b
  end.

(** ToPrimitive then ToString.  An object made by [JSON.parse] inherits
    [toString] and [valueOf] from [Object.prototype] unless it has a
    property of that name, which is then not callable; an array is
    joined with commas, [null] elements giving the empty string. *)
Fixpoint ToString (v : JSON) : Prog jsstring :=
  match v with
  | JNull => Ret (utf16 "null")
  | JBool true => Ret (utf16 "true")
  | JBool false => Ret (utf16 "false")
  | JNum x => Ret (NumberToString E x)
  | JStr s => Ret s
  | JArr l =>
    (fix elements (l : list JSON) : Prog jsstring :=
       match l with
       | [] => Ret []
       | e :: l' =>
         s <- match e with JNull => Ret [] | _ => ToString e end ;;
         match l' with
         | [] => Ret s
         | _ => r <- elements l' ;; Ret (s ++ utf16 "," ++ r)
         end
       end) l
  | JObj props =>
    match lookup (utf16 "toString") props with
    | Some _ => Throw (TypeError (cannotConvert E))
    | None => Ret (utf16 "[object Object]")
    end
  end.

(** ToNumber *)
Definition ToNumber (v : JsVal) : Prog spec_float :=
  match v with
  | None => Ret S754_nan
  | Some JNull => Ret (S754_zero false)
  | Some (JBool b) => Ret (number_of_nat (if b then 1 else 0))
  | Some (JNum x) => Ret x
  | Some w => s <- ToString w ;; Ret (StringToNumber E s)
  end.

(** [v > 0] *)
Definition gt_zero (v : JsVal) : Prog bool :=
  x <- ToNumber v ;; Ret (positive_number x).

(** ** The requests *)

Definition CHAT_COMPLETION_MUTATION : jsstring := utf16 "
  mutation ChatCompletion($input: ChatCompletionInput!) {
    chatCompletion(input: $input) {
      id
      object
      created
      model
      choices {
        index
        message {
          role
          content
        }
        finishReason
      }
      usage {
        promptTokens
        completionTokens
        totalTokens
      }
    }
  }
".

Definition POST (apiKey : jsstring) (payload : JSON) : RequestInit :=
  {| method := utf16 "POST";
     headers := [ (utf16 "Content-Type", utf16 "application/json");
                  (utf16 "Authorization", utf16 "Bearer " ++ apiKey) ];
     body := payload |}.

Definition http_error (r : Response) : Thrown :=
  Error (utf16 "HTTP error! status: " ++ decimal (Z.of_N (status r))).

(** [result.errors.map(e => e.message)] *)
Fixpoint error_messages (errors : list JSON) : Prog (list JsVal) :=
  match errors with
  | [] => Ret []
  | e :: rest =>
    m <- get (Some e) (utf16 "message") ;;
    ms <- error_messages rest ;;
    Ret (m :: ms)
  end.

(** [l.join(sep)] on values: [undefined] and [null] give the empty string. *)
Fixpoint join_values (sep : jsstring) (l : list JsVal) : Prog jsstring :=
  match l with
  | [] => Ret []
  | v :: l' =>
    s <- match v with
         | None | Some JNull => Ret []
         | Some w => ToString w
         end ;;
    match l' with
    | [] => Ret s
    | _ => r <- join_values sep l' ;; Ret (s ++ sep ++ r)
    end
  end.

(** What [makeGraphQLRequest] passes to [fetch]. *)
Definition graphqlCall (query : jsstring) (variables : JSON)
    (endpoint apiKey : jsstring) : Request :=
  {| url := endpoint ++ utf16 "/graphql";
     init := POST apiKey (JObj [ (utf16 "query", JStr query);
                                 (utf16 "variables", variables) ]) |}.

Definition makeGraphQLRequest (query : jsstring) (variables : JSON)
    (endpoint apiKey : jsstring) : Prog JsVal :=
  settled <- fetch (graphqlCall query variables endpoint apiKey) ;;
  response <- match settled with
              | Rejected e => Throw (ThrownError e)
              | Resolved r => Ret r
              end ;;
  if negb (ok response) then Throw (http_error response) else
  result <- settle (json response) ;;
  errors <- get (Some result) (utf16 "errors") ;;
  failed <- (if truthy errors
             then len <- get errors (utf16 "length") ;; gt_zero len
             else Ret false) ;;
  if failed : bool then
    msgs <- match errors with
            | Some (JArr l) => error_messages l
            | _ => Throw (TypeError
                            (notAFunction E (utf16 "result.errors.map")))
            end ;;
    joined <- join_values (utf16 ", ") msgs ;;
    Throw (Error (utf16 "GraphQL error: " ++ joined))
  else
  get (Some result) (utf16 "data").

Definition role_name (r : Role) : jsstring :=
  match r with
  | user => utf16 "user"
  | assistant => utf16 "assistant"
  end.

(** [msg => ({ role: msg.role, content: msg.content })] *)
Definition role_and_content (msg : Message) : JSON :=
  JObj [ (utf16 "role", JStr (role_name (role msg)));
         (utf16 "content", content msg) ].

(** The number literals [0.7] and [1000]. *)
Definition temperature : spec_float :=
  S754_finite false 6305039478318694 (-53).
Definition max_tokens : spec_float := number_of_nat 1000.

Record ProviderConfig := { apiKey : jsstring; baseUrl : jsstring }.

(** What [makeRESTRequest] passes to [fetch]. *)
Definition restCall (messages : list Message)
    (currentConfig : ProviderConfig) (modelName : jsstring) : Request :=
  {| url := baseUrl currentConfig ++ utf16 "/chat/completions";
     init := POST (apiKey currentConfig)
       (JObj [ (utf16 "model", JStr modelName);
               (utf16 "messages", JArr (map role_and_content messages));
               (utf16 "temperature", JNum temperature);
               (utf16 "max_tokens", JNum max_tokens) ]) |}.

Definition makeRESTRequest (messages : list Message)
    (currentConfig : ProviderConfig) (modelName : jsstring) : Prog JSON :=
  settled <- fetch (restCall messages currentConfig modelName) ;;
  response <- match settled with
              | Rejected e => Throw (ThrownError e)
              | Resolved r => Ret r
              end ;;
  if negb (ok response) then Throw (http_error response) else
  settle (json response).

(** ** The component state *)

(** [type Provider = 'openai'] *)
Inductive Provider := openai.

Definition provider_name (p : Provider) : jsstring :=
  match p with openai => utf16 "openai" end.

(** [interface Config]; [config[provider]] is [config_of]. *)
Record Config := { for_openai : ProviderConfig }.

Definition config_of (c : Config) (p : Provider) : ProviderConfig :=
  match p with openai => for_openai c end.

(** The state hooks of [App].  A render closes over their current
    values: the handler reads them from the render it was created in and
    writes through the setters. *)
Record AppState := {
  messages : list Message;
  input : jsstring;
  isLoading : bool;
  provider : Provider;
  config : Config
}.

(** [import.meta.env] *)
Record ImportMetaEnv := {
  VITE_OPENAI_API_KEY : option jsstring;
  VITE_OPENAI_BASE_URL : option jsstring
}.

Definition env_or (v : option jsstring) (default : jsstring) : jsstring :=
  match v with
  | Some (c :: s) => c :: s
  | _ => default
  end.

Definition initial (env : ImportMetaEnv) : AppState :=
  {| messages := [];
     input := [];
     isLoading := false;
     provider := openai;
     config := {| for_openai :=
       {| apiKey := env_or (VITE_OPENAI_API_KEY env) [];
          baseUrl := env_or (VITE_OPENAI_BASE_URL env)
                            (utf16 "https://api.openai.com/v1") |} |} |}.

(** ** The handler *)

Definition no_reply : jsstring := utf16 "抱歉，我没有收到回复".

Definition error_prefix : jsstring := utf16 "抱歉，发生了错误：".

Definition fallback_warning : jsstring :=
  utf16 "GraphQL 请求失败，回退到 REST API:".

Definition setMessages f := perform (SetMessages f).
Definition setInput s := perform (SetInput s).
Definition setIsLoading b := perform (SetIsLoading b).
Definition Date_now := perform DateNow.

(** [provider === 'openai' ? 'gpt-3.5-turbo' : 'deepseek-chat'] *)
Definition modelNameOf (p : Provider) : jsstring :=
  match p with openai => utf16 "gpt-3.5-turbo" end.

(** [variables: ChatCompletionInput] *)
Definition chatCompletionInput (allMessages : list Message)
    (modelName : jsstring) : JSON :=
  JObj [ (utf16 "model", JStr modelName);
         (utf16 "messages", JArr (map role_and_content allMessages));
         (utf16 "temperature", JNum temperature);
         (utf16 "maxTokens", JNum max_tokens) ].

(** The first [try] block: the GraphQL call, and [data] built from it. *)
Definition graphqlAttempt (allMessages : list Message)
    (currentConfig : ProviderConfig) (modelName : jsstring) : Prog JSON :=
  let variables := chatCompletionInput allMessages modelName in
  graphqlData <- makeGraphQLRequest CHAT_COMPLETION_MUTATION
                   (JObj [ (utf16 "input", variables) ])
                   (baseUrl currentConfig) (apiKey currentConfig) ;;
  choices <- optional graphqlData (fun d =>
               c <- get d (utf16 "chatCompletion") ;;
               get c (utf16 "choices")) ;;
  Ret (JObj [ (utf16 "choices", or_else choices (JArr [])) ]).

(** [data.choices[0]?.message?.content || '抱歉，我没有收到回复'] *)
Definition replyContent (data : JSON) : Prog JSON :=
  choices <- get (Some data) (utf16 "choices") ;;
  first <- index choices 0 ;;
  c <- optional first (fun f =>
         m <- get f (utf16 "message") ;;
         optional m (fun m => get m (utf16 "content"))) ;;
  Ret (or_else c (JStr no_reply)).

(** [error instanceof Error ? error.message : '未知错误'] *)
Definition cause_text (error : Thrown) : jsstring :=
  match error with
  | ThrownError e => message e
  | ThrownOther _ => utf16 "未知错误"
  end.

(** The inner [try]/[catch]: [data] from the GraphQL call or, when that
    throws, from the REST call. *)
Definition obtainData (r : AppState) (userMessage : Message) : Prog JSON :=
  let currentConfig := config_of (config r) (provider r) in
  let allMessages := messages r ++ [userMessage] in
  let modelName := modelNameOf (provider r) in
  try_catch
    (graphqlAttempt allMessages currentConfig modelName)
    (fun graphqlError =>
       perform (ConsoleWarn fallback_warning graphqlError) ;;
       makeRESTRequest allMessages currentConfig modelName).

(** The outer [try] block. *)
Definition tryBlock (r : AppState) (userMessage : Message) : Prog unit :=
  data <- obtainData r userMessage ;;
  t <- Date_now ;;
  c <- replyContent data ;;
  t' <- Date_now ;;
  let assistantMessage :=
    {| id := decimal (t + 1); role := assistant;
       content := c; timestamp := t' |} in
  setMessages (fun prev => prev ++ [assistantMessage]).

(** The outer [catch] block. *)
Definition catchBlock (error : Thrown) : Prog unit :=
  perform (ConsoleError (utf16 "Error:") error) ;;
  t <- Date_now ;;
  t' <- Date_now ;;
  let errorMessage :=
    {| id := decimal (t + 1); role := assistant;
       content := JStr (error_prefix ++ cause_text error);
       timestamp := t' |} in
  setMessages (fun prev => prev ++ [errorMessage]).

Definition sendMessage (r : AppState) : Prog unit :=
  if negb (truthy (Some (JStr (trim (input r))))) || isLoading r
  then Ret tt else
  let currentConfig := config_of (config r) (provider r) in
  if negb (truthy (Some (JStr (apiKey currentConfig)))) then
    perform (Alert (utf16 "请先配置 " ++ toUpperCase (provider_name (provider r))
                    ++ utf16 " API Key"))
  else
  t <- Date_now ;;
  t' <- Date_now ;;
  let userMessage :=
    {| id := decimal t; role := user;
       content := JStr (trim (input r)); timestamp := t' |} in
  setMessages (fun prev => prev ++ [userMessage]) ;;
  setInput [] ;;
  setIsLoading true ;;
  try_finally
    (try_catch (tryBlock r userMessage) catchBlock)
    (setIsLoading false).

(** [handleInputChange], as far as the state goes. *)
Definition handleInputChange (value : jsstring) : Prog unit :=
  setInput value.

End WithEngine.

(** ** Running a program

    The host answers what the program asks of its environment: the
    clock ([Date.now()], in whole milliseconds), and how each [fetch]
    settles.  Both are indexed by the number of earlier readings or
    requests, so that a host can answer anything at any time.  What the
    program does to the outside is logged. *)

Record Host := {
  engine : Engine;
  now : nat -> Z;
  net : nat -> Request -> FetchOutcome
}.

Inductive Observed :=
| Fetched (req : Request)
| Alerted (s : jsstring)
| Warned (label : jsstring) (e : Thrown)
| Errored (label : jsstring) (e : Thrown).

Record World := {
  state : AppState;
  ticks : nat;              (* readings of the clock so far *)
  log : list Observed       (* oldest first *)
}.

Definition with_state (w : World) (s : AppState) : World :=
  {| state := s; ticks := ticks w; log := log w |}.

Definition observe (w : World) (o : Observed) : World :=
  {| state := state w; ticks := ticks w; log := log w ++ [o] |}.

Definition update_messages (f : list Message -> list Message) (s : AppState) :=
  {| messages := f (messages s); input := input s; isLoading := isLoading s;
     provider := provider s; config := config s |}.

Definition update_input (v : jsstring) (s : AppState) :=
  {| messages := messages s; input := v; isLoading := isLoading s;
     provider := provider s; config := config s |}.

Definition update_isLoading (b : bool) (s : AppState) :=
  {| messages := messages s; input := input s; isLoading := b;
     provider := provider s; config := config s |}.

Definition handle (h : Host) {X} (o : Eff X) : World -> X * World :=
  match o in Eff X return World -> X * World with
  | DateNow => fun w =>
      (now h (ticks w),
       {| state := state w; ticks := S (ticks w); log := log w |})
  | SetMessages f => fun w => (tt, with_state w (update_messages f (state w)))
  | SetInput v => fun w => (tt, with_state w (update_input v (state w)))
  | SetIsLoading b => fun w => (tt, with_state w (update_isLoading b (state w)))
  | Alert s => fun w => (tt, observe w (Alerted s))
  | ConsoleWarn l e => fun w => (tt, observe w (Warned l e))
  | ConsoleError l e => fun w => (tt, observe w (Errored l e))
  end.

Definition fetches (l : list Observed) : list Request :=
  flat_map (fun o => match o with Fetched r => [r] | _ => [] end) l.

(** A program run to its end, every [fetch] settled by the host as soon
    as it is awaited. *)
Fixpoint run (h : Host) {A} (p : Prog A) (w : World) : (Thrown + A) * World :=
  match p with
  | Ret a => (inr a, w)
  | Throw e => (inl e, w)
  | Do o k => let '(x, w') := handle h o w in run h (k x) w'
  | Await req k =>
    let w' := observe w (Fetched req) in
    run h (k (net h (List.length (fetches (log w))) req)) w'
  end.

(** A world in which nothing has happened yet. *)
Definition fresh (s : AppState) : World :=
  {| state := s; ticks := 0; log := [] |}.

(** [submit]: the user clicks the send button (or presses Enter); React
    calls the [sendMessage] of the current render. *)
Definition submit (h : Host) (w : World) : (Thrown + unit) * World :=
  run h (sendMessage (engine h) (state w)) w.

(** ** The event loop

    Between the moment a [fetch] is issued and the moment it settles the
    page keeps receiving events.  A session holds the component state
    and the handlers suspended at a [fetch]; an event is a click on the
    send button, a change of the text area, or a [fetch] settling. *)

Record Suspended := {
  request : Request;
  resume : FetchOutcome -> Prog unit
}.

Record Session := {
  world : World;
  inflight : list Suspended
}.

Inductive Event :=
| Click                                  (* the send button, or Enter *)
| Typed (value : jsstring)               (* [handleInputChange] *)
| Settled (i : nat) (o : FetchOutcome).  (* the [i]-th [fetch] in flight *)

(** A handler run until it returns, throws or awaits a [fetch]. *)
Fixpoint advance (h : Host) (p : Prog unit) (w : World)
  : World * option Suspended :=
  match p with
  | Ret _ | Throw _ => (w, None)
  | Do o k => let '(x, w') := handle h o w in advance h (k x) w'
  | Await req k =>
    (observe w (Fetched req), Some {| request := req; resume := k |})
  end.

Definition option_list {A} (o : option A) : list A :=
  match o with Some a => [a] | None => [] end.

Fixpoint remove_nth {A} (i : nat) (l : list A) : list A :=
  match l, i with
  | [], _ => []
  | _ :: l', O => l'
  | a :: l', S i' => a :: remove_nth i' l'
  end.

Definition dispatch (h : Host) (p : Prog unit) (s : Session)
    (others : list Suspended) : Session :=
  let '(w', t) := advance h p (world s) in
  {| world := w'; inflight := others ++ option_list t |}.

Definition step (h : Host) (s : Session) (e : Event) : Session :=
  match e with
  | Click =>
    dispatch h (sendMessage (engine h) (state (world s))) s (inflight s)
  | Typed v => dispatch h (handleInputChange v) s (inflight s)
  | Settled i o =>
    match nth_error (inflight s) i with
    | Some t => dispatch h (resume t o) s (remove_nth i (inflight s))
    | None => s
    end
  end.

Definition steps (h : Host) (s : Session) (es : list Event) : Session :=
  fold_left (step h) es s.

(** The host settles the oldest [fetch] in flight, as it would have in a
    run; [settle_all n] does so [n] times. *)
Definition settle_next (h : Host) (s : Session) : Session :=
  match inflight s with
  | [] => s
  | t :: _ =>
    step h s
      (Settled 0 (net h (pred (List.length (fetches (log (world s)))))
                        (request t)))
  end.

Fixpoint settle_all (h : Host) (n : nat) (s : Session) : Session :=
  match n with
  | O => s
  | S n' => settle_all h n' (settle_next h s)
  end.

(** The page as loaded. *)
Definition boot (env : ImportMetaEnv) : Session :=
  {| world := fresh (initial env); inflight := [] |}.

Definition conversation (s : Session) : list Message :=
  messages (state (world s)).

(** ** Scenarios

    An engine with V8's wording of its [TypeError]s.  No scenario below
    converts between numbers and strings; the two conversions are
    stand-ins. *)

Definition v8_wording : Engine := {|
  cannotRead := fun n k =>
    utf16 "Cannot read properties of "
    ++ match n with
       | IsUndefined => utf16 "undefined"
       | IsNull => utf16 "null"
       end
    ++ utf16 " (reading '"
    ++ match k with Named s => s | Index i => decimal (Z.of_nat i) end
    ++ utf16 "')";
  notAFunction := fun e => e ++ utf16 " is not a function";
  cannotConvert := utf16 "Cannot convert object to primitive value";
  NumberToString := fun _ => utf16 "NaN";
  StringToNumber := fun _ => S754_nan
|}.

Definition object (l : list (string * JSON)) : JSON :=
  JObj (map (fun kv => (utf16 (fst kv), snd kv)) l).

Definition text (s : string) : JSON := JStr (utf16 s).

(** A page configured from the environment, with [typed] in the text
    area. *)
Definition page (key : string) (typed : string) : World :=
  fresh (update_input (utf16 typed)
           (initial {| VITE_OPENAI_API_KEY := Some (utf16 key);
                       VITE_OPENAI_BASE_URL := None |})).

Definition replied (code : N) (payload : JSON) : FetchOutcome :=
  Resolved {| status := code; json := inr payload |}.

(** A completion as the REST endpoint returns it. *)
Definition completion (reply : string) : JSON :=
  object [("choices",
           JArr [object [("message",
                          object [("role", text "assistant");
                                  ("content", text reply)])]])].

(** The clock stands at [t]; the first [fetch] settles as [first], any
    later one as [second]. *)
Definition scripted (t : Z) (first second : FetchOutcome) : Host :=
  {| engine := v8_wording;
     now := fun _ => t;
     net := fun n _ => match n with O => first | S _ => second end |}.

(** The GraphQL endpoint answers 500, the REST endpoint as [second]. *)
Definition graphql_down (second : FetchOutcome) : Host :=
  scripted 1000 (replied 500 JNull) second.

(** The GraphQL endpoint answers with the completion [reply]. *)
Definition graphql_up (reply : string) : Host :=
  scripted 1000
    (replied 200 (object [("data",
                           object [("chatCompletion", completion reply)])]))
    (Rejected (mkError (utf16 "TypeError") (utf16 "Failed to fetch"))).

(** Two sends in a row.  The reply to the first arrives when the clock
    reads 1750; the user sends again one millisecond later. *)
Definition one_millisecond_later : Host :=
  {| engine := v8_wording;
     now := fun n => nth n [1000; 1000; 1750; 1750]%Z 1751%Z;
     net := fun _ _ =>
       Rejected (mkError (utf16 "TypeError") (utf16 "Failed to fetch")) |}.

Definition graphql_reply (reply : string) : FetchOutcome :=
  replied 200
    (object [("data", object [("chatCompletion", completion reply)])]).

Definition two_sends : list Event :=
  [ Typed (utf16 "Hello"); Click; Settled 0 (graphql_reply "Hi there");
    Typed (utf16 "Thanks"); Click; Settled 0 (graphql_reply "Bye") ].

Definition configured : ImportMetaEnv :=
  {| VITE_OPENAI_API_KEY := Some (utf16 "sk-test");
     VITE_OPENAI_BASE_URL := None |}.

(** ** Shapes of programs *)

(** A program that performs no effect: it returns or throws at once. *)
Inductive Pure {A} : Prog A -> Prop :=
| pure_ret a : Pure (Ret a)
| pure_throw e : Pure (Throw e).

(** A program all of whose effects satisfy [P]. *)
Inductive Every (P : forall X, Eff X -> Prop) {A} : Prog A -> Prop :=
| every_ret a : Every P (Ret a)
| every_throw e : Every P (Throw e)
| every_do X (o : Eff X) k :
    P X o -> (forall x, Every P (k x)) -> Every P (Do o k)
| every_await req k :
    (forall o, Every P (k o)) -> Every P (Await req k).

(** Effects that only show outside: neither the component state nor the
    clock is touched. *)
Definition shows X (o : Eff X) : Prop :=
  match o with
  | Alert _ | ConsoleWarn _ _ | ConsoleError _ _ => True
  | _ => False
  end.

(** Effects that can only add messages at the end of the conversation. *)
Definition appends X (o : Eff X) : Prop :=
  match o with
  | SetMessages f => forall prev, exists more, f prev = prev ++ more
  | _ => True
  end.

(** Every suspended send can only add messages when it is resumed. *)
Definition resumes_appending (s : Session) : Prop :=
  Forall (fun t => forall o, Every appends (resume t o)) (inflight s).

(** [l] is an initial segment of [l']. *)
Definition prefix {A} (l l' : list A) : Prop := exists more, l' = l ++ more.

(** ** What a send works with

    Names for what [sendMessage] computes from the state of the render
    and from the clock, for a world [w] in which the send starts. *)

Definition currentConfigOf (s : AppState) : ProviderConfig :=
  config_of (config s) (provider s).

(** The first guard of [sendMessage] lets the call through. *)
Definition passes_first_guard (s : AppState) : bool :=
  negb (jsstring_eqb (trim (input s)) []) && negb (isLoading s).

(** What [alert] shows when the key is missing. *)
Definition configuration_prompt : jsstring := utf16 "请先配置 OPENAI API Key".

(** The guards of [sendMessage] let the send through. *)
Definition ready (s : AppState) : Prop :=
  trim (input s) <> [] /\ isLoading s = false
  /\ apiKey (currentConfigOf s) <> [].

Definition userMessageAt (h : Host) (w : World) : Message :=
  {| id := decimal (now h (ticks w));
     role := user;
     content := JStr (trim (input (state w)));
     timestamp := now h (1 + ticks w) |}.

Definition allMessagesAt (h : Host) (w : World) : list Message :=
  messages (state w) ++ [userMessageAt h w].

Definition firstCall (h : Host) (w : World) : Request :=
  graphqlCall CHAT_COMPLETION_MUTATION
    (JObj [ (utf16 "input",
             chatCompletionInput (allMessagesAt h w)
               (modelNameOf (provider (state w)))) ])
    (baseUrl (currentConfigOf (state w)))
    (apiKey (currentConfigOf (state w))).

Definition secondCall (h : Host) (w : World) : Request :=
  restCall (allMessagesAt h w) (currentConfigOf (state w))
    (modelNameOf (provider (state w))).

(** How the host settles the GraphQL call of a send started in [w], and
    the REST call that follows it. *)
Definition firstOutcome (h : Host) (w : World) : FetchOutcome :=
  net h (List.length (fetches (log w))) (firstCall h w).

Definition secondOutcome (h : Host) (w : World) : FetchOutcome :=
  net h (1 + List.length (fetches (log w))) (secondCall h w).

(** The world once the user message is appended, the text area cleared
    and the flag raised: where the first [fetch] is issued. *)
Definition started (h : Host) (w : World) : World :=
  {| state := update_isLoading true
                (update_input []
                   (update_messages (fun prev => prev ++ [userMessageAt h w])
                      (state w)));
     ticks := 2 + ticks w;
     log := log w |}.

(** The world [w] once an assistant message of content [c] is appended
    and the flag lowered, [skipped] readings of the clock having been
    made in between. *)
Definition answered (h : Host) (w : World) (skipped : nat) (c : JSON)
  : World :=
  {| state := update_isLoading false
                (update_messages
                   (fun prev => prev ++
                      [{| id := decimal (now h (skipped + ticks w) + 1);
                          role := assistant;
                          content := c;
                          timestamp := now h (1 + skipped + ticks w) |}])
                   (state w));
     ticks := 2 + skipped + ticks w;
     log := log w |}.

(** The same for a failure [e], which is reported on the console first. *)
Definition failed (h : Host) (w : World) (skipped : nat) (e : Thrown)
  : World :=
  answered h (observe w (Errored (utf16 "Error:") e)) skipped
    (JStr (error_prefix ++ cause_text e)).

(** What the REST call hands back, by the way its [fetch] settled. *)
Definition restResult (o : FetchOutcome) : Thrown + JSON :=
  match o with
  | Rejected e => inl (ThrownError e)
  | Resolved r =>
    if ok r then
      match json r with
      | inl e => inl (ThrownError e)
      | inr data => inr data
      end
    else inl (http_error r)
  end.

(** What the console shows of a send after its REST call came back with
    [res]: nothing when a reply could be read from it, else the error. *)
Definition reported (E : Engine) (res : Thrown + JSON) : list Observed :=
  match res with
  | inl e => [Errored (utf16 "Error:") e]
  | inr data =>
    match replyContent E data with
    | Throw e => [Errored (utf16 "Error:") e]
    | _ => []
    end
  end.

(** The three ways the GraphQL call fails: the promise is rejected, the
    status is not a success, the decoded reply has a non-empty [errors]
    array. *)
Inductive GraphQLFails : FetchOutcome -> Prop :=
| network_error e : GraphQLFails (Rejected e)
| bad_status r : ok r = false -> GraphQLFails (Resolved r)
| errors_reported r props e es :
    ok r = true ->
    json r = inr (JObj props) ->
    lookup (utf16 "errors") props = Some (JArr (e :: es)) ->
    GraphQLFails (Resolved r).

(** The ways the REST call fails, each with the text of its cause. *)
Inductive RESTFails : FetchOutcome -> jsstring -> Prop :=
| rest_network_error e : RESTFails (Rejected e) (message e)
| rest_bad_status r :
    ok r = false ->
    RESTFails (Resolved r)
      (utf16 "HTTP error! status: " ++ decimal (Z.of_N (status r)))
| rest_undecodable r e :
    ok r = true -> json r = inl e -> RESTFails (Resolved r) (message e).

(** A completion whose [choices[0].message.content] is [c]. *)
Definition hasContent (completion : JSON) (c : JSON) : Prop :=
  exists props first others msg,
    completion = JObj props
    /\ lookup (utf16 "choices") props = Some (JArr (JObj first :: others))
    /\ lookup (utf16 "message") first = Some (JObj msg)
    /\ lookup (utf16 "content") msg = Some c.

(** A GraphQL reply without errors whose [data.chatCompletion] is
    [completion]. *)
Definition carries (reply : JSON) (completion : JSON) : Prop :=
  exists props data,
    reply = JObj props
    /\ (lookup (utf16 "errors") props = None
        \/ lookup (utf16 "errors") props = Some (JArr []))
    /\ lookup (utf16 "data") props = Some (JObj data)
    /\ lookup (utf16 "chatCompletion") data = Some completion.

(** ** The controls and the keyboard

    What the render of [App] makes of the state for its two controls and
    its two conditional blocks, and the keyboard handler of the text
    area. *)

(** [disabled={!input.trim() || isLoading}], on the send button. *)
Definition sendDisabled (s : AppState) : bool :=
  negb (truthy (Some (JStr (trim (input s))))) || isLoading s.




(** [handleKeyPress]: whether [e.preventDefault()] is called, and what
    is run. *)
Definition handleKeyPress (E : Engine) (key : jsstring) (shiftKey : bool)
    (r : AppState) : bool * Prog unit :=
  if jsstring_eqb key (utf16 "Enter") && negb shiftKey
  then (true, sendMessage E r)
  else (false, Ret tt).

(** What the user and the network can do to the page: the events of the
    loop, and a key pressed in the text area. *)
Inductive Action :=
| Does (e : Event)
| Pressed (key : jsstring) (shiftKey : bool).

Definition react (h : Host) (s : Session) (a : Action) : Session :=
  match a with
  | Does e => step h s e
  | Pressed key shiftKey =>
    dispatch h
      (snd (handleKeyPress (engine h) key shiftKey (state (world s))))
      s (inflight s)
  end.

Definition reacts (h : Host) (s : Session) (l : list Action) : Session :=
  fold_left (react h) l s.

(** An attempt to send: a click, or a key pressed in the text area. *)
Definition attempt (a : Action) : Prop :=
  match a with
  | Does Click | Pressed _ _ => True
  | _ => False
  end.

(** ** More shapes of programs *)

(** A program all of whose requests satisfy [Q]. *)
Inductive Asks (Q : Request -> Prop) {A} : Prog A -> Prop :=
| asks_ret a : Asks Q (Ret a)
| asks_throw e : Asks Q (Throw e)
| asks_do X (o : Eff X) k : (forall x, Asks Q (k x)) -> Asks Q (Do o k)
| asks_await req k :
    Q req -> (forall o, Asks Q (k o)) -> Asks Q (Await req k).

(** A program that awaits at most [n] requests in a row. *)
Inductive AwaitsAtMost {A} : nat -> Prog A -> Prop :=
| awaits_ret n a : AwaitsAtMost n (Ret a)
| awaits_throw n e : AwaitsAtMost n (Throw e)
| awaits_do n X (o : Eff X) k :
    (forall x, AwaitsAtMost n (k x)) -> AwaitsAtMost n (Do o k)
| awaits_await n req k :
    (forall o, AwaitsAtMost n (k o)) -> AwaitsAtMost (S n) (Await req k).




(** A request of this page: a POST of JSON to one of the two endpoints
    under the configured base address, with the configured key as
    bearer credential. *)
Definition to_configured_endpoint (c : ProviderConfig) (req : Request)
  : Prop :=
  (url req = baseUrl c ++ utf16 "/graphql"
   \/ url req = baseUrl c ++ utf16 "/chat/completions")
  /\ method (init req) = utf16 "POST"
  /\ headers (init req)
     = [ (utf16 "Content-Type", utf16 "application/json");
         (utf16 "Authorization", utf16 "Bearer " ++ apiKey c) ].

(** The configuration of the session is [c], and every request made
    or still to be made is to the endpoints of [c]. *)
Definition configured_for (c : ProviderConfig) (s : Session) : Prop :=
  currentConfigOf (state (world s)) = c
  /\ Forall (to_configured_endpoint c) (fetches (log (world s)))
  /\ Forall (fun t => forall o, Asks (to_configured_endpoint c) (resume t o))
            (inflight s).

(** Nothing was ever sent or is being sent, and no key is configured. *)
Definition silent (s : Session) : Prop :=
  apiKey (currentConfigOf (state (world s))) = []
  /\ Forall (fun o => exists t, o = Alerted t) (log (world s))
  /\ conversation s = []
  /\ inflight s = []
  /\ isLoading (state (world s)) = false.

(** What the first [try] block of a send started in [w] comes to: the
    value of [data], or what it throws. *)
Definition attemptResult (h : Host) (w : World) : Thrown + JSON :=
  fst (run h (graphqlAttempt (engine h) (allMessagesAt h w)
                (currentConfigOf (state w))
                (modelNameOf (provider (state w))))
         (started h w)).

(** The world [w2], reached when [data] is known or the calls have
    failed, once the send is over. *)
Definition concluded (h : Host) (w2 : World) (res : Thrown + JSON) : World :=
  match res with
  | inl e => failed h w2 0 e
  | inr data =>
    match replyContent (engine h) data with
    | Throw e => failed h w2 1 e
    | Ret c => answered h w2 0 c
    | _ => w2
    end
  end.

(** The host of [h] whose network is one request ahead. *)
Definition one_request_later (h : Host) : Host :=
  {| engine := engine h;
     now := now h;
     net := fun n req => net h (S n) req |}.

(** A jsstring as a Rocq string, for the strings made of ASCII. *)
Definition ascii_string (s : jsstring) : string :=
  string_of_list_ascii (map ascii_of_N s).

(** ** The older component

    The component before the GraphQL call was added: two providers, and
    one REST call per send.  Its state hooks and its [sendMessage]. *)

Module RestOnly.

(** [type Provider = 'openai' | 'deepseek'] *)
Inductive Provider := openai | deepseek.

Definition provider_name (p : Provider) : jsstring :=
  match p with
  | openai => utf16 "openai"
  | deepseek => utf16 "deepseek"
  end.

Record Config := {
  for_openai : ProviderConfig;
  for_deepseek : ProviderConfig
}.

Definition config_of (c : Config) (p : Provider) : ProviderConfig :=
  match p with
  | openai => for_openai c
  | deepseek => for_deepseek c
  end.

(** [provider === 'openai' ? 'gpt-3.5-turbo' : 'deepseek-chat'] *)
Definition modelNameOf (p : Provider) : jsstring :=
  match p with
  | openai => utf16 "gpt-3.5-turbo"
  | deepseek => utf16 "deepseek-chat"
  end.

Record AppState := {
  messages : list Message;
  input : jsstring;
  isLoading : bool;
  provider : Provider;
  config : Config
}.

Record ImportMetaEnv := {
  VITE_OPENAI_API_KEY : option jsstring;
  VITE_OPENAI_BASE_URL : option jsstring;
  VITE_DEEPSEEK_API_KEY : option jsstring;
  VITE_DEEPSEEK_BASE_URL : option jsstring
}.

Definition initial (env : ImportMetaEnv) : AppState :=
  {| messages := [];
     input := [];
     isLoading := false;
     provider := openai;
     config :=
       {| for_openai :=
            {| apiKey := env_or (VITE_OPENAI_API_KEY env) [];
               baseUrl := env_or (VITE_OPENAI_BASE_URL env)
                                 (utf16 "https://api.openai.com/v1") |};
          for_deepseek :=
            {| apiKey := env_or (VITE_DEEPSEEK_API_KEY env) [];
               baseUrl := env_or (VITE_DEEPSEEK_BASE_URL env)
                                 (utf16 "https://api.deepseek.com/v1") |} |}
  |}.

(** The [try] block: the REST call is made in place. *)
Definition tryBlock (E : Engine) (r : AppState) (userMessage : Message)
  : Prog unit :=
  let currentConfig := config_of (config r) (provider r) in
  settled <- fetch (restCall (messages r ++ [userMessage]) currentConfig
                             (modelNameOf (provider r))) ;;
  response <- match settled with
              | Rejected e => Throw (ThrownError e)
              | Resolved r => Ret r
              end ;;
  if negb (ok response) then Throw (http_error response) else
  data <- settle (json response) ;;
  t <- Date_now ;;
  c <- replyContent E data ;;
  t' <- Date_now ;;
  let assistantMessage :=
    {| id := decimal (t + 1); role := assistant;
       content := c; timestamp := t' |} in
  setMessages (fun prev => prev ++ [assistantMessage]).

Definition sendMessage (E : Engine) (r : AppState) : Prog unit :=
  if negb (truthy (Some (JStr (trim (input r))))) || isLoading r
  then Ret tt else
  let currentConfig := config_of (config r) (provider r) in
  if negb (truthy (Some (JStr (apiKey currentConfig)))) then
    perform (Alert (utf16 "请先配置 " ++ toUpperCase (provider_name (provider r))
                    ++ utf16 " API Key"))
  else
  t <- Date_now ;;
  t' <- Date_now ;;
  let userMessage :=
    {| id := decimal t; role := user;
       content := JStr (trim (input r)); timestamp := t' |} in
  setMessages (fun prev => prev ++ [userMessage]) ;;
  setInput [] ;;
  setIsLoading true ;;
  try_finally
    (try_catch (tryBlock E r userMessage) catchBlock)
    (setIsLoading false).

End RestOnly.

(** The older handler run in a world.  The three hooks it writes
    ([messages], [input], [isLoading]) are those of the world; its
    provider and its configuration, which it only reads, are given
    beside it. *)
Definition rest_only_render (p : RestOnly.Provider) (c : RestOnly.Config)
    (s : AppState) : RestOnly.AppState :=
  {| RestOnly.messages := messages s;
     RestOnly.input := input s;
     RestOnly.isLoading := isLoading s;
     RestOnly.provider := p;
     RestOnly.config := c |}.

Definition rest_only_submit (h : Host) (p : RestOnly.Provider)
    (c : RestOnly.Config) (w : World) : (Thrown + unit) * World :=
  run h (RestOnly.sendMessage (engine h) (rest_only_render p c (state w))) w.

(** The request of a send of the older component. *)
Definition rest_only_call (h : Host) (p : RestOnly.Provider)
    (c : RestOnly.Config) (w : World) : Request :=
  restCall (allMessagesAt h w) (RestOnly.config_of c p)
           (RestOnly.modelNameOf p).

(** The guards of the older [sendMessage] let the send through. *)
Definition rest_only_ready (p : RestOnly.Provider) (c : RestOnly.Config)
    (s : AppState) : Prop :=
  trim (input s) <> [] /\ isLoading s = false
  /\ apiKey (RestOnly.config_of c p) <> [].

(** ** The model at work *)

Example utf16_of_a_literal :
  utf16 "抱a" = [25265; 97]%N /\ utf16 "😀" = [55357; 56832]%N.
Proof. split; reflexivity. Qed.

Example trim_strips_both_ends :
  trim (utf16 "  Hello world
 ") = utf16 "Hello world"
  /\ trim ([160; 12288; 65279; 8232]%N) = [].
Proof. split; reflexivity. Qed.

Example decimal_of_a_reading :
  decimal 1751 = utf16 "1751" /\ decimal 0 = utf16 "0".
Proof. split; reflexivity. Qed.

(** The GraphQL endpoint is down and the REST endpoint answers: the
    reply of the REST endpoint is shown. *)
Example fallback_reply_is_shown :
  map content
    (messages (state (snd (submit
       (graphql_down (replied 200 (completion "Fallback reply")))
       (page "sk-test" "Hello")))))
  = [text "Hello"; text "Fallback reply"].
Proof. vm_compute. reflexivity. Qed.

(** The messages of a non-empty [errors] array, joined, are what the
    console shows of the GraphQL failure. *)
Example graphql_errors_are_logged :
  let reply :=
    object [("errors", JArr [object [("message", text "rate limited")];
                             object [("message", text "try later")]])] in
  In (Warned fallback_warning
        (Error (utf16 "GraphQL error: rate limited, try later")))
     (log (snd (submit
        (scripted 1000 (replied 200 reply)
                  (replied 200 (completion "Fallback reply")))
        (page "sk-test" "Hello")))).
Proof. vm_compute. right. left. reflexivity. Qed.

(** A GraphQL reply whose [data] has no [chatCompletion]: reading
    [choices] of it throws inside the inner [try], and the REST endpoint
    is called. *)
Example graphql_data_without_completion_falls_back :
  let h := scripted 1000 (replied 200 (object [("data", object [])]))
                    (replied 200 (completion "Fallback reply")) in
  let w := page "sk-test" "Hello" in
  map url (fetches (log (snd (submit h w))))
  = [utf16 "https://api.openai.com/v1/graphql";
     utf16 "https://api.openai.com/v1/chat/completions"]
  /\ map content (messages (state (snd (submit h w))))
     = [text "Hello"; text "Fallback reply"].
Proof. split; vm_compute; reflexivity. Qed.

(** ** Running composite programs *)

Lemma run_bind (h : Host) {A B} (p : Prog A) (f : A -> Prog B) (w : World) :
  run h (bind p f) w =
  match run h p w with
  | (inr a, w') => run h (f a) w'
  | (inl e, w') => (inl e, w')
  end.
Proof.
  revert w; induction p as [a | e | X o k IH | req k IH]; intro w; simpl.
  - reflexivity.
  - reflexivity.
  - destruct (handle h o w) as [x w']. apply IH.
  - apply IH.
Qed.

Lemma run_try_catch (h : Host) {A} (p : Prog A) (c : Thrown -> Prog A)
    (w : World) :
  run h (try_catch p c) w =
  match run h p w with
  | (inr a, w') => (inr a, w')
  | (inl e, w') => run h (c e) w'
  end.
Proof.
  revert w; induction p as [a | e | X o k IH | req k IH]; intro w; simpl.
  - reflexivity.
  - reflexivity.
  - destruct (handle h o w) as [x w']. apply IH.
  - apply IH.
Qed.

Lemma run_try_finally (h : Host) {A} (p : Prog A) (f : Prog unit)
    (w : World) :
  run h (try_finally p f) w =
  let '(r, w') := run h p w in
  match run h f w' with
  | (inr _, w'') => (r, w'')
  | (inl e, w'') => (inl e, w'')
  end.
Proof.
  revert w; induction p as [a | e | X o k IH | req k IH]; intro w; simpl.
  - rewrite run_bind. destruct (run h f w) as [[e | []] w']; reflexivity.
  - rewrite run_bind. destruct (run h f w) as [[e' | []] w']; reflexivity.
  - destruct (handle h o w) as [x w']. apply IH.
  - apply IH.
Qed.

(** ** Pure programs *)

Lemma pure_bind {A B} (p : Prog A) (f : A -> Prog B) :
  Pure p -> (forall a, Pure (f a)) -> Pure (bind p f).
Proof. destruct 1; simpl; auto using @Pure. Qed.

Create HintDb shapes.
#[local] Hint Constructors Pure : shapes.
#[local] Hint Resolve pure_bind : shapes.

Section PureReads.

Variable E : Engine.

Lemma get_pure v k : Pure (get E v k).
Proof. destruct v as [[]|]; simpl; auto with shapes. Qed.

Lemma index_pure v i : Pure (index E v i).
Proof. destruct v as [[]|]; simpl; auto with shapes. Qed.

Lemma optional_pure v rest :
  (forall x, Pure (rest x)) -> Pure (optional v rest).
Proof. intro H. unfold optional. destruct (nullish v); auto with shapes. Qed.

Lemma settle_pure {A} (r : JsError + A) : Pure (settle r).
Proof. destruct r; simpl; auto with shapes. Qed.

Lemma ToString_pure : forall v, Pure (ToString E v).
Proof.
  fix IH 1. intro v; destruct v as [ | [] | x | s | l | props]; simpl;
    try constructor.
  - induction l as [ | e l IHl]; [constructor | ].
    apply pure_bind.
    + pose proof (IH e) as He. destruct e; try constructor; exact He.
    + intro s. destruct l; [constructor | ].
      apply pure_bind; [exact IHl | constructor].
  - destruct (lookup (utf16 "toString") props); constructor.
Qed.

Lemma ToNumber_pure v : Pure (ToNumber E v).
Proof.
  destruct v as [[]|]; simpl; auto with shapes;
    apply pure_bind; auto with shapes;
    first [ apply (ToString_pure (JArr _)) | apply (ToString_pure (JObj _))
          | apply (ToString_pure (JStr _)) ].
Qed.

Lemma gt_zero_pure v : Pure (gt_zero E v).
Proof.
  unfold gt_zero. apply pure_bind; auto using ToNumber_pure with shapes.
Qed.

Lemma error_messages_pure l : Pure (error_messages E l).
Proof.
  induction l as [ | e l IHl]; simpl; [constructor | ].
  apply pure_bind; [apply (get_pure (Some e)) | intro m].
  apply pure_bind; [exact IHl | constructor].
Qed.

Lemma join_values_pure sep l : Pure (join_values E sep l).
Proof.
  induction l as [ | v l IHl]; simpl; auto with shapes.
  apply pure_bind.
  - destruct v as [[]|]; auto using ToString_pure with shapes.
  - intro s. destruct l; [constructor | ].
    apply pure_bind; [exact IHl | constructor].
Qed.

Lemma replyContent_pure data : Pure (replyContent E data).
Proof.
  unfold replyContent.
  repeat (apply pure_bind || apply optional_pure || intro
          || apply get_pure || apply index_pure); auto with shapes.
Qed.

End PureReads.

(** ** Programs all of whose effects satisfy a predicate *)

Section EveryEffect.

Variable P : forall X, Eff X -> Prop.

Lemma every_pure {A} (p : Prog A) : Pure p -> Every P p.
Proof. destruct 1; constructor. Qed.

Lemma every_bind {A B} (p : Prog A) (f : A -> Prog B) :
  Every P p -> (forall a, Every P (f a)) -> Every P (bind p f).
Proof.
  intros Hp Hf. induction Hp; simpl; auto; constructor; auto.
Qed.

Lemma every_try_catch {A} (p : Prog A) (c : Thrown -> Prog A) :
  Every P p -> (forall e, Every P (c e)) -> Every P (try_catch p c).
Proof.
  intros Hp Hc. induction Hp; simpl; auto; constructor; auto.
Qed.

Lemma every_try_finally {A} (p : Prog A) (f : Prog unit) :
  Every P p -> Every P f -> Every P (try_finally p f).
Proof.
  intros Hp Hf. induction Hp; simpl.
  - apply every_bind; [exact Hf | constructor].
  - apply every_bind; [exact Hf | constructor].
  - constructor; auto.
  - constructor; auto.
Qed.

Lemma every_perform {X} (o : Eff X) : P o -> Every P (perform o).
Proof. intro H. constructor; [exact H | constructor]. Qed.

Lemma every_fetch req : Every P (fetch req).
Proof. constructor. constructor. Qed.

End EveryEffect.

Lemma every_weaken (P Q : forall X, Eff X -> Prop) {A} (p : Prog A) :
  (forall X (o : Eff X), P X o -> Q X o) -> Every P p -> Every Q p.
Proof. intros HPQ Hp. induction Hp; constructor; auto. Qed.

(** The two requests perform no effect but their [fetch]. *)
Section Requests.

Variables (E : Engine) (P : forall X, Eff X -> Prop).

Lemma makeGraphQLRequest_every query variables endpoint key :
  Every P (makeGraphQLRequest E query variables endpoint key).
Proof.
  unfold makeGraphQLRequest.
  apply every_bind; [apply every_fetch | intro settled].
  apply every_pure.
  apply pure_bind; [destruct settled; constructor | intro response].
  destruct (negb (ok response)); [constructor | ].
  apply pure_bind; [apply settle_pure | intro result].
  apply pure_bind; [apply get_pure | intro errors].
  apply pure_bind.
  - destruct (truthy errors); [ | constructor].
    apply pure_bind; [apply get_pure | intro; apply gt_zero_pure].
  - intros [ | ]; [ | apply get_pure].
    apply pure_bind.
    + destruct errors as [[ | | | | l | ] | ];
        try constructor; apply error_messages_pure.
    + intro msgs. apply pure_bind; [apply join_values_pure | constructor].
Qed.

Lemma graphqlAttempt_every all cfg model :
  Every P (graphqlAttempt E all cfg model).
Proof.
  unfold graphqlAttempt.
  apply every_bind; [apply makeGraphQLRequest_every | intro graphqlData].
  apply every_pure.
  apply pure_bind; [ | constructor].
  apply optional_pure. intro d.
  apply pure_bind; [apply get_pure | intro; apply get_pure].
Qed.

Lemma makeRESTRequest_every all cfg model :
  Every P (makeRESTRequest all cfg model).
Proof.
  unfold makeRESTRequest.
  apply every_bind; [apply every_fetch | intro settled].
  apply every_pure.
  apply pure_bind; [destruct settled; constructor | intro response].
  destruct (negb (ok response)); [constructor | apply settle_pure].
Qed.

End Requests.

(** Effects that only show leave state and clock as they were. *)
Lemma run_shows (h : Host) {A} (p : Prog A) (w : World) :
  Every shows p ->
  state (snd (run h p w)) = state w
  /\ ticks (snd (run h p w)) = ticks w
  /\ prefix (log w) (log (snd (run h p w))).
Proof.
  intro Hp. revert w.
  induction Hp as [a | e | X o k Ho _ IH | req k _ IH]; intro w; simpl.
  - repeat split. exists []. symmetry; apply app_nil_r.
  - repeat split. exists []. symmetry; apply app_nil_r.
  - destruct o; try contradiction; simpl;
      (match goal with
       | |- context [run h (k tt) ?w'] =>
         destruct (IH tt w') as (Hs & Ht & more & Hl)
       end;
       repeat split; [exact Hs | exact Ht | ];
       eexists; rewrite Hl; simpl; rewrite <- app_assoc; reflexivity).
  - match goal with
    | |- context [run h (k ?o) ?w'] =>
      destruct (IH o w') as (Hs & Ht & more & Hl)
    end.
    repeat split; [exact Hs | exact Ht | ].
    eexists; rewrite Hl; simpl; rewrite <- app_assoc; reflexivity.
Qed.

(** The inner [try]/[catch] touches neither the state nor the clock. *)
Lemma obtainData_shows (E : Engine) r u : Every shows (obtainData E r u).
Proof.
  unfold obtainData. apply every_try_catch.
  - apply graphqlAttempt_every.
  - intro e. apply every_bind.
    + apply every_perform. exact I.
    + intro. apply makeRESTRequest_every.
Qed.

(** ** The send, block by block *)

Section Blocks.

Variable h : Host.

Lemma truthy_string s : s <> [] -> truthy (Some (JStr s)) = true.
Proof. destruct s; [congruence | reflexivity]. Qed.

(** Past its guards, [sendMessage] appends the user message, clears the
    text area, raises the flag and enters the [try] statement. *)
Lemma submit_ready w :
  ready (state w) ->
  submit h w =
  run h (try_finally
           (try_catch (tryBlock (engine h) (state w) (userMessageAt h w))
                      catchBlock)
           (setIsLoading false))
        (started h w).
Proof.
  intros (Hin & Hload & Hkey).
  unfold submit, sendMessage, currentConfigOf in *.
  rewrite (truthy_string Hin), Hload, (truthy_string Hkey).
  reflexivity.
Qed.

(** The [try] statement, given what the inner [try]/[catch] produced. *)
Lemma run_try_statement r u w :
  run h (try_finally (try_catch (tryBlock (engine h) r u) catchBlock)
           (setIsLoading false)) w =
  let '(res, w2) := run h (obtainData (engine h) r u) w in
  (inr tt,
   match res with
   | inl e => failed h w2 0 e
   | inr data =>
     match replyContent (engine h) data with
     | Throw e => failed h w2 1 e
     | Ret c => answered h w2 0 c
     | _ => w2
     end
   end).
Proof.
  rewrite run_try_finally, run_try_catch. unfold tryBlock.
  rewrite run_bind.
  destruct (run h (obtainData (engine h) r u) w) as [[e | data] w2].
  - reflexivity.
  - cbn [Date_now perform bind run handle].
    rewrite run_bind.
    destruct (replyContent_pure (engine h) data) as [c | e]; reflexivity.
Qed.

End Blocks.

(** ** The two calls *)

Lemma jsstring_eqb_refl s : jsstring_eqb s s = true.
Proof. unfold jsstring_eqb. destruct (jsstring_eq_dec s s); congruence. Qed.

Lemma fetches_app l l' : fetches (l ++ l') = fetches l ++ fetches l'.
Proof. apply flat_map_app. Qed.

Lemma bind_pure_throws {A B} (p : Prog A) (f : A -> Prog B) :
  Pure p -> (forall a, exists e, f a = Throw e) -> exists e, bind p f = Throw e.
Proof.
  intros [a | e] Hf; simpl; [apply Hf | eauto].
Qed.

Section Calls.

Variable h : Host.

Lemma run_makeRESTRequest all cfg model w :
  run h (makeRESTRequest all cfg model) w =
  (restResult (net h (List.length (fetches (log w))) (restCall all cfg model)),
   observe w (Fetched (restCall all cfg model))).
Proof.
  unfold makeRESTRequest, restResult. simpl.
  destruct (net h _ _) as [e | r]; simpl; [reflexivity | ].
  destruct (ok r); simpl; [ | reflexivity].
  destruct (json r); reflexivity.
Qed.

(** A reply with a non-empty [errors] array makes [makeGraphQLRequest]
    throw, whatever the entries are. *)
Lemma errors_throw props e es :
  lookup (utf16 "errors") props = Some (JArr (e :: es)) ->
  exists cause,
    (errors <- get (engine h) (Some (JObj props)) (utf16 "errors") ;;
     failed <- (if truthy errors
                then len <- get (engine h) errors (utf16 "length") ;;
                     gt_zero (engine h) len
                else Ret false) ;;
     if failed : bool then
       msgs <- match errors with
               | Some (JArr l) => error_messages (engine h) l
               | _ => Throw (TypeError
                        (notAFunction (engine h) (utf16 "result.errors.map")))
               end ;;
       joined <- join_values (engine h) (utf16 ", ") msgs ;;
       Throw (Error (utf16 "GraphQL error: " ++ joined))
     else get (engine h) (Some (JObj props)) (utf16 "data")) = Throw cause.
Proof.
  intro Herr. cbn [get bind]. rewrite Herr.
  cbn [truthy get bind]. rewrite jsstring_eqb_refl.
  cbn [bind gt_zero ToNumber List.length number_of_nat positive_number].
  apply bind_pure_throws; [apply error_messages_pure | intro msgs].
  apply bind_pure_throws; [apply join_values_pure | intro joined].
  eauto.
Qed.

Lemma run_graphqlAttempt_fails all cfg model w :
  let call := graphqlCall CHAT_COMPLETION_MUTATION
                (JObj [ (utf16 "input", chatCompletionInput all model) ])
                (baseUrl cfg) (apiKey cfg) in
  let o := net h (List.length (fetches (log w))) call in
  GraphQLFails o ->
  exists cause,
    run h (graphqlAttempt (engine h) all cfg model) w
    = (inl cause, observe w (Fetched call))
    /\ (forall e, o = Rejected e -> cause = ThrownError e)
    /\ (forall r, o = Resolved r -> ok r = false -> cause = http_error r).
Proof.
  intros call o Hfail. unfold graphqlAttempt, makeGraphQLRequest.
  cbn [fetch bind run]. fold call. fold o.
  destruct Hfail as [e | r Hok | r props e es Hok Hjson Herr].
  - exists (ThrownError e). split; [reflexivity | split].
    + intros e' He'. congruence.
    + intros r Hr. discriminate.
  - exists (http_error r). cbn [bind]. rewrite Hok.
    split; [reflexivity | split].
    + intros e He. discriminate.
    + intros r' Hr' _. congruence.
  - cbn [bind]. rewrite Hok, Hjson. cbn [negb settle bind].
    destruct (errors_throw props Herr) as (cause & Hcause).
    exists cause. rewrite Hcause. split; [reflexivity | split].
    + intros e' He'. discriminate.
    + intros r' Hr' Hok'. congruence.
Qed.

(** When the GraphQL call fails, the inner [catch] logs the cause and
    hands back what the REST call gives. *)
Lemma run_obtainData_fallback w :
  GraphQLFails (firstOutcome h w) ->
  exists cause,
    run h (obtainData (engine h) (state w) (userMessageAt h w)) (started h w)
    = (restResult (secondOutcome h w),
       observe (observe (observe (started h w) (Fetched (firstCall h w)))
                  (Warned fallback_warning cause))
         (Fetched (secondCall h w)))
    /\ (forall e, firstOutcome h w = Rejected e -> cause = ThrownError e)
    /\ (forall r, firstOutcome h w = Resolved r -> ok r = false ->
        cause = http_error r).
Proof.
  intro Hfail. unfold obtainData. rewrite run_try_catch.
  destruct (run_graphqlAttempt_fails
              (messages (state w) ++ [userMessageAt h w])
              (config_of (config (state w)) (provider (state w)))
              (modelNameOf (provider (state w))) (started h w) Hfail)
    as (cause & Hrun & Hrej & Hst).
  exists cause. rewrite Hrun.
  cbn [perform bind run handle]. rewrite run_makeRESTRequest.
  split; [ | split; assumption].
  unfold secondOutcome, secondCall, firstCall, allMessagesAt, currentConfigOf,
    fallback_warning.
  cbn [observe log started]. rewrite !fetches_app, !length_app.
  change (fetches [Fetched ?r]) with [r].
  change (fetches [Warned ?l ?e]) with (@nil Request).
  change (List.length (@nil Request)) with 0.
  change (List.length [?r]) with 1.
  rewrite Nat.add_0_r, Nat.add_1_r.
  change (1 + ?n) with (S n).
  reflexivity.
Qed.

End Calls.

(** ** The send as a whole *)

Section Send.

Variable h : Host.

(** A send whose GraphQL call fails, in full. *)
Lemma submit_after_graphql_failure w :
  ready (state w) ->
  GraphQLFails (firstOutcome h w) ->
  exists cause,
    submit h w =
    (inr tt,
     let w2 :=
       observe (observe (observe (started h w) (Fetched (firstCall h w)))
                  (Warned fallback_warning cause))
         (Fetched (secondCall h w)) in
     match restResult (secondOutcome h w) with
     | inl e => failed h w2 0 e
     | inr data =>
       match replyContent (engine h) data with
       | Throw e => failed h w2 1 e
       | Ret c => answered h w2 0 c
       | _ => w2
       end
     end)
    /\ (forall e, firstOutcome h w = Rejected e -> cause = ThrownError e)
    /\ (forall r, firstOutcome h w = Resolved r -> ok r = false ->
        cause = http_error r).
Proof.
  intros Hready Hfail.
  destruct (run_obtainData_fallback h w Hfail) as (cause & Hrun & Hcause).
  exists cause. split; [ | exact Hcause].
  rewrite (submit_ready h w Hready), run_try_statement.
  rewrite Hrun. reflexivity.
Qed.

End Send.

(** C1.  Whenever the GraphQL call of a send fails (rejected promise,
    non-success status, or a decoded reply with a non-empty [errors]
    array), the log of the send reads: the GraphQL request, a console
    warning carrying the cause, the REST request to
    [{baseUrl}/chat/completions], and only then, possibly, the report of
    an error, which is the one of the REST call or of reading its reply.
    The handler itself completes normally. *)
Theorem graphql_failure_falls_back_to_rest (h : Host) (w : World) :
  ready (state w) ->
  GraphQLFails (firstOutcome h w) ->
  exists cause,
    fst (submit h w) = inr tt
    /\ log (snd (submit h w)) =
       log w ++ [ Fetched (firstCall h w);
                  Warned fallback_warning cause;
                  Fetched (secondCall h w) ]
             ++ reported (engine h) (restResult (secondOutcome h w))
    /\ url (firstCall h w)
       = baseUrl (currentConfigOf (state w)) ++ utf16 "/graphql"
    /\ url (secondCall h w)
       = baseUrl (currentConfigOf (state w)) ++ utf16 "/chat/completions"
    /\ (forall e, firstOutcome h w = Rejected e -> cause = ThrownError e)
    /\ (forall r, firstOutcome h w = Resolved r -> ok r = false ->
        cause = http_error r).
Proof.
  intros Hready Hfail.
  destruct (submit_after_graphql_failure h w Hready Hfail)
    as (cause & Hrun & Hrej & Hst).
  exists cause. rewrite Hrun.
  split; [reflexivity | ].
  split; [ | repeat split; assumption].
  cbn [snd]. unfold reported.
  destruct (restResult (secondOutcome h w)) as [e | data].
  - cbn [failed answered observe log started].
    rewrite <- !app_assoc. reflexivity.
  - destruct (replyContent_pure (engine h) data) as [c | e].
    + cbn [answered observe log started].
      rewrite <- !app_assoc, app_nil_r. reflexivity.
    + cbn [failed answered observe log started].
      rewrite <- !app_assoc. reflexivity.
Qed.

Lemma graphql_failure_falls_back_to_rest_witness :
  let h := graphql_down (replied 200 (completion "Fallback reply")) in
  let w := page "sk-test" "Hello" in
  exists cause,
    fst (submit h w) = inr tt
    /\ log (snd (submit h w)) =
       log w ++ [ Fetched (firstCall h w);
                  Warned fallback_warning cause;
                  Fetched (secondCall h w) ]
             ++ reported (engine h) (restResult (secondOutcome h w))
    /\ url (firstCall h w)
       = baseUrl (currentConfigOf (state w)) ++ utf16 "/graphql"
    /\ url (secondCall h w)
       = baseUrl (currentConfigOf (state w)) ++ utf16 "/chat/completions"
    /\ (forall e, firstOutcome h w = Rejected e -> cause = ThrownError e)
    /\ (forall r, firstOutcome h w = Resolved r -> ok r = false ->
        cause = http_error r).
Proof.
  intros h w.
  apply (graphql_failure_falls_back_to_rest h w).
  - repeat split; vm_compute; discriminate.
  - apply (bad_status {| status := 500; json := inr JNull |}). reflexivity.
Defined.

(** ** Replies that can be read *)

Section Replies.

Variable h : Host.

Lemma replyContent_hasContent completion c :
  hasContent completion c ->
  replyContent (engine h) completion = Ret (or_else (Some c) (JStr no_reply)).
Proof.
  intros (props & first & others & msg & -> & Hchoices & Hmessage & Hcontent).
  unfold replyContent. cbn [get bind]. rewrite Hchoices.
  cbn [index nth_error bind optional nullish get]. rewrite Hmessage.
  cbn [bind optional nullish get]. rewrite Hcontent. reflexivity.
Qed.

(** The GraphQL call on a reply without errors. *)
Lemma run_graphqlAttempt_carries all cfg model w r reply completion :
  let call := graphqlCall CHAT_COMPLETION_MUTATION
                (JObj [ (utf16 "input", chatCompletionInput all model) ])
                (baseUrl cfg) (apiKey cfg) in
  net h (List.length (fetches (log w))) call = Resolved r ->
  ok r = true ->
  json r = inr reply ->
  carries reply completion ->
  run h (graphqlAttempt (engine h) all cfg model) w =
  (match get (engine h) (Some completion) (utf16 "choices") with
   | Ret choices =>
     inr (JObj [ (utf16 "choices", or_else choices (JArr [])) ])
   | Throw e => inl e
   | _ => inl (ThrownOther None)
   end,
   observe w (Fetched call)).
Proof.
  intros call Hnet Hok Hjson (props & data & -> & Herrors & Hdata & Hcc).
  unfold graphqlAttempt, makeGraphQLRequest.
  cbn [fetch bind run]. fold call. rewrite Hnet.
  cbn [bind]. rewrite Hok, Hjson. cbn [negb settle bind get].
  destruct Herrors as [Herr | Herr]; rewrite Herr.
  - cbn [truthy bind]. rewrite Hdata.
    cbn [optional nullish bind get]. rewrite Hcc.
    destruct completion; reflexivity.
  - cbn [truthy get bind]. rewrite jsstring_eqb_refl.
    cbn [bind gt_zero ToNumber List.length number_of_nat positive_number].
    rewrite Hdata. cbn [optional nullish bind get]. rewrite Hcc.
    destruct completion; reflexivity.
Qed.

(** A send whose GraphQL call brings a completion with a content. *)
Lemma submit_graphql_content w r reply completion c :
  ready (state w) ->
  firstOutcome h w = Resolved r ->
  ok r = true ->
  json r = inr reply ->
  carries reply completion ->
  hasContent completion c ->
  submit h w =
  (inr tt,
   answered h (observe (started h w) (Fetched (firstCall h w))) 0
     (or_else (Some c) (JStr no_reply))).
Proof.
  intros Hready Hnet Hok Hjson Hcarries Hcontent.
  rewrite (submit_ready h w Hready), run_try_statement.
  unfold obtainData. rewrite run_try_catch.
  rewrite (run_graphqlAttempt_carries
             (messages (state w) ++ [userMessageAt h w])
             (config_of (config (state w)) (provider (state w)))
             (modelNameOf (provider (state w))) (started h w)
             Hnet Hok Hjson Hcarries).
  destruct Hcontent
    as (props & first & others & msg & -> & Hchoices & Hmessage & Hc).
  cbn [get]. rewrite Hchoices. cbn [or_else truthy].
  rewrite (replyContent_hasContent (c := c)); [reflexivity | ].
  exists [(utf16 "choices", JArr (JObj first :: others))], first, others, msg.
  split; [reflexivity | ].
  split; [cbn [lookup]; rewrite jsstring_eqb_refl; reflexivity | ].
  split; assumption.
Qed.

(** A send whose GraphQL call fails and whose REST call brings a
    completion with a content. *)
Lemma submit_rest_content w r completion c :
  ready (state w) ->
  GraphQLFails (firstOutcome h w) ->
  secondOutcome h w = Resolved r ->
  ok r = true ->
  json r = inr completion ->
  hasContent completion c ->
  exists cause,
    submit h w =
    (inr tt,
     answered h
       (observe (observe (observe (started h w) (Fetched (firstCall h w)))
                   (Warned fallback_warning cause))
          (Fetched (secondCall h w))) 0
       (or_else (Some c) (JStr no_reply))).
Proof.
  intros Hready Hfail Hnet Hok Hjson Hcontent.
  destruct (submit_after_graphql_failure h w Hready Hfail)
    as (cause & Hrun & _).
  exists cause. rewrite Hrun, Hnet. unfold restResult. rewrite Hok, Hjson.
  rewrite (replyContent_hasContent Hcontent). reflexivity.
Qed.

End Replies.

Lemma RESTFails_result o text :
  RESTFails o text -> exists e, restResult o = inl e /\ cause_text e = text.
Proof.
  intros [e | r Hok | r e Hok Hjson]; unfold restResult.
  - eexists; split; reflexivity.
  - rewrite Hok. eexists; split; reflexivity.
  - rewrite Hok, Hjson. eexists; split; reflexivity.
Qed.

(** C2.  When the GraphQL call and the REST call of a send both fail,
    the assistant message appended after the user message has as content
    the error prefix followed by the cause text of the REST failure, and
    nothing of the GraphQL failure. *)
Theorem both_calls_fail_rest_cause_shown (h : Host) (w : World)
    (text : jsstring) :
  ready (state w) ->
  GraphQLFails (firstOutcome h w) ->
  RESTFails (secondOutcome h w) text ->
  exists a,
    messages (state (snd (submit h w)))
    = messages (state w) ++ [userMessageAt h w; a]
    /\ role a = assistant
    /\ content a = JStr (error_prefix ++ text).
Proof.
  intros Hready Hgraphql Hrest.
  destruct (submit_after_graphql_failure h w Hready Hgraphql)
    as (cause & Hrun & _).
  destruct (RESTFails_result Hrest) as (e & Hres & Htext).
  rewrite Hrun, Hres. cbn [snd failed answered state update_isLoading
    update_messages messages observe started update_input].
  eexists. split; [rewrite <- app_assoc; reflexivity | ].
  split; [reflexivity | ].
  cbn [content]. rewrite Htext. reflexivity.
Qed.

Lemma both_calls_fail_rest_cause_shown_witness :
  let h := graphql_down (replied 503 JNull) in
  let w := page "sk-test" "Hello" in
  exists a,
    messages (state (snd (submit h w)))
    = messages (state w) ++ [userMessageAt h w; a]
    /\ role a = assistant
    /\ content a
       = JStr (error_prefix ++ utf16 "HTTP error! status: " ++ decimal 503).
Proof.
  intros h w.
  apply (both_calls_fail_rest_cause_shown h w).
  - repeat split; vm_compute; discriminate.
  - apply (bad_status {| status := 500; json := inr JNull |}). reflexivity.
  - apply (rest_bad_status {| status := 503; json := inr JNull |}). reflexivity.
Defined.

(** C3.  A send that passes the guards (input not blank, key configured,
    no send pending) completes normally, having appended to the
    conversation exactly one user message, whose content is the trimmed
    input, followed by exactly one assistant message; the pending flag
    is false at the end.  This holds however the network behaves. *)
Theorem submit_appends_user_then_assistant (h : Host) (w : World) :
  ready (state w) ->
  exists u a,
    fst (submit h w) = inr tt
    /\ messages (state (snd (submit h w))) = messages (state w) ++ [u; a]
    /\ role u = user
    /\ content u = JStr (trim (input (state w)))
    /\ role a = assistant
    /\ isLoading (state (snd (submit h w))) = false.
Proof.
  intro Hready.
  rewrite (submit_ready h w Hready), run_try_statement.
  pose proof (run_shows h (started h w)
                (obtainData_shows (engine h) (state w)
                                  (userMessageAt h w)))
    as (Hstate & _ & _).
  destruct (run h (obtainData (engine h) (state w) (userMessageAt h w))
              (started h w)) as [res w2].
  cbn [snd] in Hstate. exists (userMessageAt h w).
  assert (Hshape : forall w3 skipped c,
            state w3 = state w2 ->
            let a := {| id := decimal (now h (skipped + ticks w3) + 1);
                        role := assistant; content := c;
                        timestamp := now h (1 + skipped + ticks w3) |} in
            messages (state (answered h w3 skipped c))
            = messages (state w) ++ [userMessageAt h w; a]
            /\ isLoading (state (answered h w3 skipped c)) = false).
  { intros w3 skipped c Hw3 a. unfold answered. cbn. rewrite Hw3, Hstate.
    cbn. rewrite <- app_assoc. split; reflexivity. }
  destruct res as [e | data];
    [ | destruct (replyContent_pure (engine h) data) as [c | e] ];
    eexists; cbn [fst snd];
    (split; [reflexivity | ]);
    (split; [apply Hshape; reflexivity | ]);
    repeat split; apply Hshape; reflexivity.
Qed.

Lemma submit_appends_user_then_assistant_witness :
  let h := graphql_up "Hi there" in
  let w := page "sk-test" "  Hello " in
  exists u a,
    fst (submit h w) = inr tt
    /\ messages (state (snd (submit h w))) = messages (state w) ++ [u; a]
    /\ role u = user
    /\ content u = JStr (trim (input (state w)))
    /\ role a = assistant
    /\ isLoading (state (snd (submit h w))) = false.
Proof.
  intros h w.
  apply (submit_appends_user_then_assistant h w).
  repeat split; vm_compute; discriminate.
Defined.

Lemma dispatch_nothing (h : Host) (s : Session) :
  dispatch h (Ret tt) s (inflight s) = s.
Proof.
  destruct s as [w ts]. unfold dispatch. cbn. rewrite app_nil_r. reflexivity.
Qed.

Lemma first_guard_returns (E : Engine) (r : AppState) :
  trim (input r) = [] \/ isLoading r = true ->
  sendMessage E r = Ret tt.
Proof.
  intro Hguard. unfold sendMessage. destruct Hguard as [-> | ->].
  - reflexivity.
  - rewrite orb_true_r. reflexivity.
Qed.

(** C4.  A call of [sendMessage] whose input trims to the empty string,
    or made while a send is pending, does nothing: it returns normally
    and the world (conversation, pending flag, text area, clock, log of
    requests and alerts) is as before; in the event loop the click
    leaves the session, suspended sends included, unchanged. *)
Theorem blank_or_pending_submit_is_noop (h : Host) (w : World) :
  trim (input (state w)) = [] \/ isLoading (state w) = true ->
  submit h w = (inr tt, w)
  /\ forall s, world s = w -> step h s Click = s.
Proof.
  intro Hguard. split.
  - unfold submit. rewrite (first_guard_returns (engine h) (state w) Hguard).
    reflexivity.
  - intros s <-. cbn [step].
    rewrite (first_guard_returns (engine h) (state (world s)) Hguard).
    apply dispatch_nothing.
Qed.

Lemma blank_or_pending_submit_is_noop_witness :
  let h := graphql_up "Hi there" in
  let w := page "sk-test" "   " in
  submit h w = (inr tt, w)
  /\ forall s, world s = w -> step h s Click = s.
Proof.
  intros h w.
  apply (blank_or_pending_submit_is_noop h w).
  left. reflexivity.
Defined.

(** C5, as stated, fails: with no key configured and a blank text area
    the call returns at the first guard and nothing is shown. *)
Lemma unconfigured_blank_submit_shows_nothing :
  let h := graphql_up "Hi there" in
  let w := page "" "   " in
  apiKey (currentConfigOf (state w)) = []
  /\ forall s, ~ In (Alerted s) (log (snd (submit h w))).
Proof.
  intros h w. split; [reflexivity | ].
  intros s Hin. vm_compute in Hin. exact Hin.
Qed.

Lemma passes_first_guard_false s :
  passes_first_guard s = false ->
  trim (input s) = [] \/ isLoading s = true.
Proof.
  unfold passes_first_guard, jsstring_eqb. intro H.
  destruct (jsstring_eq_dec (trim (input s)) []); [left; assumption | ].
  destruct (isLoading s); [right; reflexivity | discriminate].
Qed.

Lemma passes_first_guard_true s :
  passes_first_guard s = true ->
  trim (input s) <> [] /\ isLoading s = false.
Proof.
  unfold passes_first_guard, jsstring_eqb. intro H.
  destruct (jsstring_eq_dec (trim (input s)) []); [discriminate | ].
  destruct (isLoading s); [discriminate | split; [assumption | reflexivity] ].
Qed.

(** C5, amended.  With no key configured, a call of [sendMessage] that
    passes the first guard (input not blank, no send pending) shows the
    configuration prompt and returns; a call that does not pass it
    returns silently.  Either way the call completes normally, the
    component state (conversation, pending flag, text area) is
    unchanged and no request is made. *)
Theorem unconfigured_submit_prompts_past_first_guard (h : Host) (w : World) :
  apiKey (currentConfigOf (state w)) = [] ->
  submit h w =
    (inr tt,
     if passes_first_guard (state w)
     then observe w (Alerted configuration_prompt) else w)
  /\ state (snd (submit h w)) = state w
  /\ fetches (log (snd (submit h w))) = fetches (log w).
Proof.
  intro Hkey.
  assert (Hrun : submit h w =
    (inr tt,
     if passes_first_guard (state w)
     then observe w (Alerted configuration_prompt) else w)).
  { destruct (passes_first_guard (state w)) eqn:Hguard.
    - apply passes_first_guard_true in Hguard as (Hin & Hload).
      unfold submit, sendMessage, currentConfigOf in *.
      rewrite (truthy_string Hin), Hload, Hkey.
      destruct (provider (state w)). reflexivity.
    - apply passes_first_guard_false in Hguard.
      unfold submit.
      rewrite (first_guard_returns (engine h) (state w) Hguard).
      reflexivity. }
  split; [exact Hrun | ]. rewrite Hrun. cbn [snd].
  destruct (passes_first_guard (state w)); split; try reflexivity.
  cbn [observe log]. rewrite fetches_app. cbn. apply app_nil_r.
Qed.

Lemma unconfigured_submit_prompts_past_first_guard_witness :
  let h := graphql_up "Hi there" in
  let w := page "" "Hello" in
  submit h w = (inr tt, observe w (Alerted configuration_prompt))
  /\ state (snd (submit h w)) = state w
  /\ fetches (log (snd (submit h w))) = fetches (log w).
Proof.
  intros h w.
  apply (unconfigured_submit_prompts_past_first_guard h w).
  reflexivity.
Defined.

Lemma hasContent_completion reply :
  hasContent (completion reply) (text reply).
Proof.
  unfold completion, object. cbn [map fst snd].
  eexists _, _, _, _. split; [reflexivity | ].
  split; [cbn [lookup]; rewrite jsstring_eqb_refl; reflexivity | ].
  split; [cbn [lookup]; rewrite jsstring_eqb_refl; reflexivity | ].
  reflexivity.
Qed.

(** C6.  The text area holds "Hello", no send is pending, a key is
    configured, and the GraphQL call resolves with a success status and
    the body [{data: {chatCompletion: {choices: [{message: {role:
    "assistant", content: "Hi there"}}]}}}].  Then the assistant message
    appended after the user message has content "Hi there", and the
    only request of the send is the one to [{baseUrl}/graphql]: the REST
    endpoint is not called. *)
Theorem hello_answered_by_graphql (h : Host) (w : World) (r : Response) :
  input (state w) = utf16 "Hello" ->
  isLoading (state w) = false ->
  apiKey (currentConfigOf (state w)) <> [] ->
  firstOutcome h w = Resolved r ->
  ok r = true ->
  json r = inr (object [("data",
                         object [("chatCompletion", completion "Hi there")])])
  ->
  exists a,
    messages (state (snd (submit h w)))
    = messages (state w) ++ [userMessageAt h w; a]
    /\ content (userMessageAt h w) = text "Hello"
    /\ role a = assistant
    /\ content a = text "Hi there"
    /\ fetches (log (snd (submit h w))) = fetches (log w) ++ [firstCall h w]
    /\ url (firstCall h w)
       = baseUrl (currentConfigOf (state w)) ++ utf16 "/graphql"
    /\ url (firstCall h w) <> url (secondCall h w).
Proof.
  intros Hinput Hload Hkey Hnet Hok Hjson.
  assert (Hready : ready (state w)).
  { repeat split; try assumption. rewrite Hinput. vm_compute. discriminate. }
  rewrite (submit_graphql_content h w (completion := completion "Hi there")
             (c := text "Hi there") Hready Hnet Hok Hjson).
  - eexists. split; [cbn; rewrite <- app_assoc; reflexivity | ].
    split; [unfold userMessageAt; cbn [content]; rewrite Hinput;
            reflexivity | ].
    split; [reflexivity | ]. split; [reflexivity | ].
    split; [ | split; [reflexivity | ] ].
    + cbn [snd answered observe log started]. rewrite fetches_app.
      reflexivity.
    + cbn [firstCall secondCall graphqlCall restCall url].
      intro Hurl. apply app_inv_head in Hurl. vm_compute in Hurl.
      discriminate.
  - unfold object. cbn [map fst snd]. eexists _, _.
    split; [reflexivity | ]. split; [left; reflexivity | ].
    split; [cbn [lookup]; rewrite jsstring_eqb_refl; reflexivity | ].
    cbn [lookup]. rewrite jsstring_eqb_refl. reflexivity.
  - apply hasContent_completion.
Qed.

Lemma hello_answered_by_graphql_witness :
  let h := graphql_up "Hi there" in
  let w := page "sk-test" "Hello" in
  exists a,
    messages (state (snd (submit h w)))
    = messages (state w) ++ [userMessageAt h w; a]
    /\ content (userMessageAt h w) = text "Hello"
    /\ role a = assistant
    /\ content a = text "Hi there"
    /\ fetches (log (snd (submit h w))) = fetches (log w) ++ [firstCall h w]
    /\ url (firstCall h w)
       = baseUrl (currentConfigOf (state w)) ++ utf16 "/graphql"
    /\ url (firstCall h w) <> url (secondCall h w).
Proof.
  intros h w.
  apply (hello_answered_by_graphql h w
           (r := {| status := 200;
                    json := inr (object [("data",
                      object [("chatCompletion",
                               completion "Hi there")])]) |})).
  - reflexivity.
  - reflexivity.
  - vm_compute. discriminate.
  - reflexivity.
  - reflexivity.
  - reflexivity.
Defined.

(** C7 fails on the REST path.  When the GraphQL call fails and the REST
    call resolves with a success status and a decoded object that has
    no [choices] property, reading [data.choices[0]] throws: the
    assistant message is the error message built by the [catch] block
    from the engine's [TypeError], not the "no reply received"
    placeholder. *)
Theorem rest_reply_without_choices_is_an_error (h : Host) (w : World)
    (r : Response) (props : list (jsstring * JSON)) :
  ready (state w) ->
  GraphQLFails (firstOutcome h w) ->
  secondOutcome h w = Resolved r ->
  ok r = true ->
  json r = inr (JObj props) ->
  lookup (utf16 "choices") props = None ->
  exists a,
    messages (state (snd (submit h w)))
    = messages (state w) ++ [userMessageAt h w; a]
    /\ role a = assistant
    /\ content a
       = JStr (error_prefix ++ cannotRead (engine h) IsUndefined (Index 0))
    /\ content a <> JStr no_reply.
Proof.
  intros Hready Hfail Hnet Hok Hjson Hchoices.
  destruct (submit_after_graphql_failure h w Hready Hfail)
    as (cause & Hrun & _).
  rewrite Hrun, Hnet. unfold restResult. rewrite Hok, Hjson.
  unfold replyContent. cbn [get bind]. rewrite Hchoices.
  cbn [index bind snd failed answered state update_isLoading update_messages
       messages observe started update_input].
  eexists. split; [rewrite <- app_assoc; reflexivity | ].
  split; [reflexivity | ]. split; [reflexivity | ].
  cbn [content cause_text TypeError message].
  intro H. vm_compute in H. discriminate.
Qed.

Lemma rest_reply_without_choices_is_an_error_witness :
  let h := graphql_down (replied 200 (object [])) in
  let w := page "sk-test" "Hello" in
  exists a,
    messages (state (snd (submit h w)))
    = messages (state w) ++ [userMessageAt h w; a]
    /\ role a = assistant
    /\ content a
       = text "抱歉，发生了错误：Cannot read properties of undefined (reading '0')"
    /\ content a <> JStr no_reply.
Proof.
  intros h w.
  apply (rest_reply_without_choices_is_an_error h w
           (r := {| status := 200; json := inr (object []) |})
           (props := [])).
  - repeat split; vm_compute; discriminate.
  - apply (bad_status {| status := 500; json := inr JNull |}). reflexivity.
  - reflexivity.
  - reflexivity.
  - reflexivity.
  - reflexivity.
Defined.

(** C10.  When the completion that reaches the handler, from the GraphQL
    call or, after its failure, from the REST call, has a
    [choices[0].message.content] that is present and is the empty
    string, the assistant message appended after the user message has
    the "no reply received" placeholder as content. *)
Theorem empty_content_replaced_by_placeholder (h : Host) (w : World)
    (r : Response) (answer : JSON) :
  ready (state w) ->
  hasContent answer (JStr []) ->
  ok r = true ->
  (firstOutcome h w = Resolved r
   /\ exists reply, json r = inr reply /\ carries reply answer)
  \/ (GraphQLFails (firstOutcome h w)
      /\ secondOutcome h w = Resolved r /\ json r = inr answer) ->
  exists a,
    messages (state (snd (submit h w)))
    = messages (state w) ++ [userMessageAt h w; a]
    /\ role a = assistant
    /\ content a = JStr no_reply.
Proof.
  intros Hready Hcontent Hok
    [(Hnet & reply & Hjson & Hcarries) | (Hfail & Hnet & Hjson)].
  - rewrite (submit_graphql_content h w Hready Hnet Hok Hjson Hcarries
               Hcontent).
    eexists. split; [cbn; rewrite <- app_assoc; reflexivity | ].
    split; reflexivity.
  - destruct (submit_rest_content h w Hready Hfail Hnet Hok Hjson Hcontent)
      as (cause & ->).
    eexists. split; [cbn; rewrite <- app_assoc; reflexivity | ].
    split; reflexivity.
Qed.

Lemma empty_content_replaced_by_placeholder_witness :
  let h := graphql_down (replied 200 (completion "")) in
  let w := page "sk-test" "Hello" in
  exists a,
    messages (state (snd (submit h w)))
    = messages (state w) ++ [userMessageAt h w; a]
    /\ role a = assistant
    /\ content a = JStr no_reply.
Proof.
  intros h w.
  apply (empty_content_replaced_by_placeholder h w
           (r := {| status := 200; json := inr (completion "") |})
           (answer := completion "")).
  - repeat split; vm_compute; discriminate.
  - apply (hasContent_completion "").
  - reflexivity.
  - right. split; [ | split; reflexivity].
    apply (bad_status {| status := 500; json := inr JNull |}). reflexivity.
Defined.

(** ** The conversation only grows *)

Lemma prefix_refl {A} (l : list A) : prefix l l.
Proof. exists []. symmetry. apply app_nil_r. Qed.

Lemma prefix_trans {A} (l1 l2 l3 : list A) :
  prefix l1 l2 -> prefix l2 l3 -> prefix l1 l3.
Proof.
  intros (m1 & ->) (m2 & ->). exists (m1 ++ m2). symmetry. apply app_assoc.
Qed.

Lemma handle_appends (h : Host) {X} (o : Eff X) (w : World) :
  appends o ->
  prefix (messages (state w)) (messages (state (snd (handle h o w)))).
Proof.
  destruct o; cbn; intro Ho; try apply prefix_refl.
  destruct (Ho (messages (state w))) as (more & ->). exists more. reflexivity.
Qed.

Lemma run_appends (h : Host) {A} (p : Prog A) (w : World) :
  Every appends p ->
  prefix (messages (state w)) (messages (state (snd (run h p w)))).
Proof.
  intro Hp. revert w.
  induction Hp as [a | e | X o k Ho _ IH | req k _ IH]; intro w; cbn [run].
  - apply prefix_refl.
  - apply prefix_refl.
  - pose proof (handle_appends h o w Ho) as Hstep.
    destruct (handle h o w) as [x w']. cbn [snd] in Hstep.
    eapply prefix_trans; [exact Hstep | apply IH].
  - apply (IH _ (observe w (Fetched req))).
Qed.

Lemma advance_appends (h : Host) (p : Prog unit) (w : World) :
  Every appends p ->
  prefix (messages (state w)) (messages (state (fst (advance h p w))))
  /\ forall t, snd (advance h p w) = Some t ->
               forall o, Every appends (resume t o).
Proof.
  intro Hp. revert w.
  induction Hp as [a | e | X o k Ho _ IH | req k Hk _]; intro w;
    cbn [advance].
  - split; [apply prefix_refl | discriminate].
  - split; [apply prefix_refl | discriminate].
  - pose proof (handle_appends h o w Ho) as Hstep.
    destruct (handle h o w) as [x w']. cbn [snd] in Hstep.
    destruct (IH x w') as (Hpre & Hres).
    split; [eapply prefix_trans; eassumption | exact Hres].
  - split; [apply prefix_refl | ].
    cbn [snd]. intros t [= <-]. exact Hk.
Qed.

Lemma sendMessage_appends (E : Engine) (r : AppState) :
  Every appends (sendMessage E r).
Proof.
  assert (Hadd : forall m : Message,
            Every appends (setMessages (fun prev => prev ++ [m]))).
  { intro m. apply every_perform. intro prev. exists [m]. reflexivity. }
  unfold sendMessage.
  destruct (negb _ || _); [constructor | ].
  destruct (negb _); [apply every_perform; exact I | ].
  repeat (apply every_bind;
          [apply every_perform; exact I || apply Hadd | intro]).
  apply every_bind; [apply Hadd | intro].
  repeat (apply every_bind; [apply every_perform; exact I | intro]).
  apply every_try_finally; [ | apply every_perform; exact I].
  apply every_try_catch.
  - unfold tryBlock. apply every_bind.
    + eapply every_weaken; [ | apply obtainData_shows].
      intros X []; cbn; tauto.
    + intro data. apply every_bind; [apply every_perform; exact I | intro t].
      apply every_bind; [apply every_pure, replyContent_pure | intro c].
      apply every_bind; [apply every_perform; exact I | intro t'].
      apply Hadd.
  - intro e. unfold catchBlock.
    repeat (apply every_bind; [apply every_perform; exact I | intro]).
    apply Hadd.
Qed.

Lemma Forall_remove_nth {A} (P : A -> Prop) i (l : list A) :
  Forall P l -> Forall P (remove_nth i l).
Proof.
  intro Hl. revert i. induction Hl as [ | a l Ha Hl IH]; intro i.
  - destruct i; constructor.
  - destruct i; cbn; [assumption | constructor; auto].
Qed.

Lemma dispatch_appends (h : Host) (p : Prog unit) (s : Session) others :
  Every appends p ->
  Forall (fun t => forall o, Every appends (resume t o)) others ->
  prefix (conversation s) (conversation (dispatch h p s others))
  /\ resumes_appending (dispatch h p s others).
Proof.
  intros Hp Hothers. unfold dispatch, conversation, resumes_appending.
  destruct (advance_appends h (world s) Hp) as (Hpre & Hres).
  destruct (advance h p (world s)) as [w' t]. cbn [fst snd] in *.
  split; [exact Hpre | ]. cbn [inflight world].
  apply Forall_app. split; [exact Hothers | ].
  destruct t as [t | ]; cbn; constructor; auto.
Qed.

Lemma step_appends (h : Host) (s : Session) (e : Event) :
  resumes_appending s ->
  prefix (conversation s) (conversation (step h s e))
  /\ resumes_appending (step h s e).
Proof.
  intro Hs. destruct e as [ | v | i o]; cbn [step].
  - apply dispatch_appends; [apply sendMessage_appends | exact Hs].
  - apply dispatch_appends; [ | exact Hs].
    apply every_perform. exact I.
  - destruct (nth_error (inflight s) i) as [t | ] eqn:Hi.
    + apply dispatch_appends.
      * apply nth_error_In in Hi.
        unfold resumes_appending in Hs. rewrite Forall_forall in Hs.
        apply (Hs t Hi).
      * apply Forall_remove_nth. exact Hs.
    + split; [apply prefix_refl | exact Hs].
Qed.

Lemma steps_appends (h : Host) (es : list Event) (s : Session) :
  resumes_appending s ->
  prefix (conversation s) (conversation (steps h s es))
  /\ resumes_appending (steps h s es).
Proof.
  revert s. induction es as [ | e es IH]; intros s Hs; cbn [steps fold_left].
  - split; [apply prefix_refl | exact Hs].
  - destruct (@step_appends h s e Hs) as (Hpre & Hs').
    destruct (IH _ Hs') as (Hpre' & Hs'').
    split; [eapply prefix_trans; eassumption | exact Hs''].
Qed.

(** C8.  The conversation is append-only.  A complete run of
    [sendMessage] leaves the earlier conversation as an initial segment
    of the new one; and so does any sequence of events (clicks on send,
    changes of the text area, requests settling in any order) from the
    page as loaded: the conversation after part of the sequence is an
    initial segment of the conversation after all of it. *)
Theorem conversation_is_append_only (h : Host) :
  (forall w, prefix (messages (state w)) (messages (state (snd (submit h w)))))
  /\ (forall env es es',
        prefix (conversation (steps h (boot env) es))
               (conversation (steps h (boot env) (es ++ es')))).
Proof.
  split.
  - intro w. apply run_appends, sendMessage_appends.
  - intros env es es'. unfold steps. rewrite fold_left_app.
    apply steps_appends.
    apply (@steps_appends h es (boot env)). constructor.
Qed.

(** ** Runs and events agree *)

(** A click followed by the settling of the requests it gives rise to
    leaves the world as a run of [sendMessage] does. *)
Lemma dispatch_as_run (h : Host) (p : Prog unit) (w : World) :
  exists n,
    forall s, world s = w ->
      let s' := settle_all h n (dispatch h p s []) in
      world s' = snd (run h p w) /\ inflight s' = [].
Proof.
  revert w. induction p as [a | e | X o k IH | req k IH]; intro w.
  - exists 0. intros s <-. split; reflexivity.
  - exists 0. intros s <-. split; reflexivity.
  - pose proof (IH (fst (handle h o w)) (snd (handle h o w))) as (n & Hn).
    exists n. intros s <-.
    specialize (Hn {| world := snd (handle h o (world s)); inflight := [] |}
                   eq_refl).
    unfold dispatch in *. cbn [advance run world] in *.
    destruct (handle h o (world s)) as [x w']. exact Hn.
  - pose proof (IH (net h (List.length (fetches (log w))) req)
                   (observe w (Fetched req))) as (n & Hn).
    exists (S n). intros s <-.
    specialize (Hn {| world := observe (world s) (Fetched req);
                      inflight := [] |} eq_refl).
    unfold dispatch at 1. cbn [advance app option_list settle_all].
    unfold settle_next. cbn [inflight world request step nth_error resume
                             remove_nth observe log run].
    rewrite fetches_app, length_app.
    change (List.length (fetches [Fetched req])) with 1.
    rewrite Nat.add_1_r. cbn [pred]. exact Hn.
Qed.

Lemma click_as_submit (h : Host) (s : Session) :
  inflight s = [] ->
  exists n,
    world (settle_all h n (step h s Click)) = snd (submit h (world s))
    /\ inflight (settle_all h n (step h s Click)) = [].
Proof.
  intro Hidle. cbn [step]. rewrite Hidle.
  destruct (dispatch_as_run h (sendMessage (engine h) (state (world s)))
              (world s)) as (n & Hn).
  exists n. apply (Hn s eq_refl).
Qed.

(** C9 fails.  Identifiers are clock readings: an assistant message gets
    the reading plus one.  When the reply to a first send arrives as the
    clock reads 1750 and the user sends again one millisecond later, the
    second and the third message of the conversation, an assistant
    message and a user message, share the identifier "1751". *)
Theorem message_ids_collide :
  let msgs := conversation (steps one_millisecond_later (boot configured)
                              two_sends) in
  map id msgs = [decimal 1000; decimal 1751; decimal 1751; decimal 1752]
  /\ map role msgs = [user; assistant; user; assistant]
  /\ map content msgs
     = [text "Hello"; text "Hi there"; text "Thanks"; text "Bye"]
  /\ ~ NoDup (map id msgs).
Proof.
  intro msgs.
  assert (Hids : map id msgs
                 = [decimal 1000; decimal 1751; decimal 1751; decimal 1752])
    by (vm_compute; reflexivity).
  split; [exact Hids | ].
  split; [vm_compute; reflexivity | ].
  split; [vm_compute; reflexivity | ].
  rewrite Hids. intro Hnodup.
  inversion Hnodup as [ | x l _ Htail]; subst.
  inversion Htail as [ | x l Hnotin _]; subst.
  apply Hnotin. left. reflexivity.
Qed.

(** ** The requests of a send *)

Lemma run_of_pure (h : Host) {A} (p : Prog A) :
  Pure p -> exists res, forall w, run h p w = (res, w).
Proof. intros [a | e]; eexists; intro w; reflexivity. Qed.

(** The first [try] block makes its one request and then only computes. *)
Lemma run_graphqlAttempt (h : Host) all cfg model w :
  exists res,
    run h (graphqlAttempt (engine h) all cfg model) w
    = (res,
       observe w (Fetched
         (graphqlCall CHAT_COMPLETION_MUTATION
            (JObj [ (utf16 "input", chatCompletionInput all model) ])
            (baseUrl cfg) (apiKey cfg)))).
Proof.
  unfold graphqlAttempt, makeGraphQLRequest. cbn [fetch bind run].
  match goal with
  | |- context [run h ?p ?w'] => assert (Hp : Pure p)
  end.
  { apply pure_bind.
    - apply pure_bind; [destruct (net h _ _); constructor | intro response].
      destruct (negb (ok response)); [constructor | ].
      apply pure_bind; [apply settle_pure | intro result].
      apply pure_bind; [apply get_pure | intro errors].
      apply pure_bind.
      + destruct (truthy errors); [ | constructor].
        apply pure_bind; [apply get_pure | intro; apply gt_zero_pure].
      + intros [ | ]; [ | apply get_pure].
        apply pure_bind.
        * destruct errors as [[ | | | | l | ] | ];
            try constructor; apply error_messages_pure.
        * intro. apply pure_bind; [apply join_values_pure | constructor].
    - intro g. apply pure_bind; [ | constructor].
      apply optional_pure. intro d.
      apply pure_bind; [apply get_pure | intro; apply get_pure]. }
  destruct (run_of_pure h Hp) as (res & Hres).
  exists res. apply Hres.
Qed.

Lemma run_obtainData (h : Host) (w : World) :
  run h (obtainData (engine h) (state w) (userMessageAt h w)) (started h w)
  = match attemptResult h w with
    | inr data =>
      (inr data, observe (started h w) (Fetched (firstCall h w)))
    | inl cause =>
      (restResult (secondOutcome h w),
       observe (observe (observe (started h w) (Fetched (firstCall h w)))
                  (Warned fallback_warning cause))
         (Fetched (secondCall h w)))
    end.
Proof.
  unfold obtainData, attemptResult. rewrite run_try_catch.
  unfold allMessagesAt, currentConfigOf.
  destruct (run_graphqlAttempt h
              (messages (state w) ++ [userMessageAt h w])
              (config_of (config (state w)) (provider (state w)))
              (modelNameOf (provider (state w))) (started h w))
    as (res & Hrun).
  rewrite Hrun. cbn [fst]. destruct res as [cause | data].
  - cbn [perform bind run handle]. rewrite run_makeRESTRequest.
    unfold secondOutcome, secondCall, firstCall, allMessagesAt,
      currentConfigOf.
    cbn [observe log started]. rewrite !fetches_app, !length_app.
    change (fetches [Fetched ?r]) with [r].
    change (fetches [Warned ?l ?e]) with (@nil Request).
    change (List.length (@nil Request)) with 0.
    change (List.length [?r]) with 1.
    rewrite Nat.add_0_r, Nat.add_1_r.
    change (1 + ?n) with (S n).
    reflexivity.
  - reflexivity.
Qed.

(** A send that passes the guards, in full. *)
Lemma submit_in_full (h : Host) (w : World) :
  ready (state w) ->
  submit h w =
  (inr tt,
   match attemptResult h w with
   | inr data =>
     concluded h (observe (started h w) (Fetched (firstCall h w))) (inr data)
   | inl cause =>
     concluded h
       (observe (observe (observe (started h w) (Fetched (firstCall h w)))
                   (Warned fallback_warning cause))
          (Fetched (secondCall h w)))
       (restResult (secondOutcome h w))
   end).
Proof.
  intro Hready.
  rewrite (submit_ready h w Hready), run_try_statement, run_obtainData.
  destruct (attemptResult h w); reflexivity.
Qed.

Lemma state_concluded (h : Host) (w2 : World) res :
  exists a,
    state (concluded h w2 res)
    = update_isLoading false
        (update_messages (fun prev => prev ++ [a]) (state w2))
    /\ role a = assistant.
Proof.
  unfold concluded. destruct res as [e | data];
    [ | destruct (replyContent_pure (engine h) data) as [c | e] ];
    eexists; split; reflexivity.
Qed.

Lemma fetches_concluded (h : Host) (w2 : World) res :
  fetches (log (concluded h w2 res)) = fetches (log w2).
Proof.
  unfold concluded. destruct res as [e | data];
    [ | destruct (replyContent_pure (engine h) data) as [c | e] ];
    cbn [failed answered observe log]; rewrite ?fetches_app;
    cbn [fetches flat_map app]; rewrite ?app_nil_r; reflexivity.
Qed.

Lemma firstCall_configured (h : Host) (w : World) :
  to_configured_endpoint (currentConfigOf (state w)) (firstCall h w).
Proof. split; [left; reflexivity | split; reflexivity]. Qed.

Lemma secondCall_configured (h : Host) (w : World) :
  to_configured_endpoint (currentConfigOf (state w)) (secondCall h w).
Proof. split; [right; reflexivity | split; reflexivity]. Qed.

(** X1.  A send that passes the guards makes one request or two, never
    more: the GraphQL request, followed by the REST request exactly when
    the first [try] block threw.  Both are POSTs of JSON to the
    configured base address with the configured key as bearer
    credential. *)
Theorem send_makes_one_or_two_requests (h : Host) (w : World) :
  ready (state w) ->
  fetches (log (snd (submit h w)))
  = fetches (log w)
    ++ firstCall h w
       :: match attemptResult h w with
          | inl _ => [secondCall h w]
          | inr _ => []
          end
  /\ to_configured_endpoint (currentConfigOf (state w)) (firstCall h w)
  /\ to_configured_endpoint (currentConfigOf (state w)) (secondCall h w).
Proof.
  intro Hready.
  split; [ | split ];
    [ | apply firstCall_configured | apply secondCall_configured ].
  rewrite (submit_in_full h w Hready). cbn [snd].
  destruct (attemptResult h w) as [cause | data];
    rewrite fetches_concluded; cbn [observe log started];
    rewrite !fetches_app; cbn [fetches flat_map app];
    rewrite <- ?app_assoc; reflexivity.
Qed.

Lemma send_makes_one_or_two_requests_witness :
  let h := graphql_down (replied 200 (completion "Fallback reply")) in
  let w := page "sk-test" "Hello" in
  fetches (log (snd (submit h w))) = [firstCall h w; secondCall h w]
  /\ to_configured_endpoint (currentConfigOf (state w)) (firstCall h w)
  /\ to_configured_endpoint (currentConfigOf (state w)) (secondCall h w).
Proof.
  intros h w.
  apply (send_makes_one_or_two_requests h w).
  repeat split; vm_compute; discriminate.
Defined.

(** ** Reading a reply never throws past [choices] *)

Section Reading.

Variable E : Engine.

Lemma get_returns v k : nullish v = None -> exists x, get E v k = Ret x.
Proof.
  destruct v as [[ | b | x | s | l | props] | ]; cbn; intro H;
    try discriminate; eexists; reflexivity.
Qed.

Lemma index_returns v i : nullish v = None -> exists x, index E v i = Ret x.
Proof.
  destruct v as [[ | b | x | s | l | props] | ]; cbn; intro H;
    try discriminate; eexists; reflexivity.
Qed.

(** [first?.message?.content] always has a value. *)
Lemma content_chain_returns first :
  exists c,
    optional first (fun f =>
      m <- get E f (utf16 "message") ;;
      optional m (fun m => get E m (utf16 "content"))) = Ret c.
Proof.
  unfold optional at 1. destruct (nullish first) eqn:Hfirst.
  - eexists; reflexivity.
  - destruct (get_returns first (utf16 "message") Hfirst) as (m & ->).
    cbn [bind]. unfold optional. destruct (nullish m) eqn:Hm.
    + eexists; reflexivity.
    + apply get_returns. exact Hm.
Qed.

Lemma replyContent_returns props v :
  lookup (utf16 "choices") props = Some v ->
  v <> JNull ->
  exists c, replyContent E (JObj props) = Ret c.
Proof.
  intros Hchoices Hv. unfold replyContent. cbn [get bind]. rewrite Hchoices.
  destruct (index_returns (Some v) 0) as (first & ->).
  { destruct v; try reflexivity. congruence. }
  cbn [bind].
  destruct (content_chain_returns first) as (c & ->).
  eexists; reflexivity.
Qed.

Lemma replyContent_no_choice props :
  lookup (utf16 "choices") props = Some (JArr []) ->
  replyContent E (JObj props) = Ret (JStr no_reply).
Proof.
  intro Hchoices. unfold replyContent. cbn [get bind]. rewrite Hchoices.
  reflexivity.
Qed.

Lemma or_else_array_not_null x : or_else x (JArr []) <> JNull.
Proof.
  destruct x as [[ | b | y | s | l | props] | ]; cbn; try discriminate.
  - destruct b; discriminate.
  - destruct y; discriminate.
  - destruct s; discriminate.
Qed.

End Reading.

(** What the first [try] block hands over, when it does, is an object
    with a [choices] property that is neither [undefined] nor [null]. *)
Lemma attemptResult_data (h : Host) (w : World) data :
  attemptResult h w = inr data ->
  exists x, data = JObj [ (utf16 "choices", or_else x (JArr [])) ].
Proof.
  unfold attemptResult, graphqlAttempt. rewrite run_bind.
  destruct (run h (makeGraphQLRequest _ _ _ _ _) _) as [[e | g] w'];
    [discriminate | ].
  rewrite run_bind.
  match goal with
  | |- context [run h (optional ?v ?f) w'] =>
    assert (Hp : Pure (optional v f))
  end.
  { apply optional_pure. intro d.
    apply pure_bind; [apply get_pure | intro; apply get_pure]. }
  destruct Hp as [x | e]; cbn [run fst]; [ | discriminate].
  intros [= <-]. exists x. reflexivity.
Qed.

(** X2.  When the first [try] block does not throw, the send is
    answered from the GraphQL reply alone: reading [data] cannot throw,
    so the assistant message holds what [replyContent] returns (the
    content of the reply, or the placeholder), nothing is written to the
    console and the only request is the GraphQL one. *)
Theorem graphql_data_is_always_readable (h : Host) (w : World) (data : JSON) :
  ready (state w) ->
  attemptResult h w = inr data ->
  exists c,
    replyContent (engine h) data = Ret c
    /\ submit h w =
       (inr tt,
        answered h (observe (started h w) (Fetched (firstCall h w))) 0 c)
    /\ log (snd (submit h w)) = log w ++ [Fetched (firstCall h w)].
Proof.
  intros Hready Hdata.
  destruct (attemptResult_data h w Hdata) as (x & ->).
  destruct (replyContent_returns (engine h)
              [ (utf16 "choices", or_else x (JArr [])) ]
              (v := or_else x (JArr []))) as (c & Hc).
  { cbn [lookup]. rewrite jsstring_eqb_refl. reflexivity. }
  { apply or_else_array_not_null. }
  exists c. split; [exact Hc | ].
  rewrite (submit_in_full h w Hready), Hdata. unfold concluded. rewrite Hc.
  split; reflexivity.
Qed.

Lemma graphql_data_is_always_readable_witness :
  let h := scripted 1000
             (replied 200 (object [("data", object [("chatCompletion",
                                      object [("choices", text "none")])])]))
             (replied 200 (completion "Fallback reply")) in
  let w := page "sk-test" "Hello" in
  exists c,
    replyContent (engine h)
      (JObj [ (utf16 "choices", text "none") ]) = Ret c
    /\ submit h w =
       (inr tt,
        answered h (observe (started h w) (Fetched (firstCall h w))) 0 c)
    /\ log (snd (submit h w)) = log w ++ [Fetched (firstCall h w)].
Proof.
  intros h w.
  apply (graphql_data_is_always_readable h w).
  - repeat split; vm_compute; discriminate.
  - vm_compute. reflexivity.
Defined.

(** X3.  On the REST path, a decoded reply whose [choices] is an array
    is always read without error: the assistant message holds what
    [replyContent] returns, which is the placeholder when the array is
    empty, and nothing but the fallback warning is written to the
    console. *)
Theorem rest_choices_array_is_always_readable (h : Host) (w : World)
    (r : Response) (props : list (jsstring * JSON)) (l : list JSON) :
  ready (state w) ->
  GraphQLFails (firstOutcome h w) ->
  secondOutcome h w = Resolved r ->
  ok r = true ->
  json r = inr (JObj props) ->
  lookup (utf16 "choices") props = Some (JArr l) ->
  exists c cause a,
    replyContent (engine h) (JObj props) = Ret c
    /\ (l = [] -> c = JStr no_reply)
    /\ messages (state (snd (submit h w)))
       = messages (state w) ++ [userMessageAt h w; a]
    /\ role a = assistant
    /\ content a = c
    /\ log (snd (submit h w))
       = log w ++ [ Fetched (firstCall h w);
                    Warned fallback_warning cause;
                    Fetched (secondCall h w) ].
Proof.
  intros Hready Hfail Hnet Hok Hjson Hchoices.
  destruct (replyContent_returns (engine h) props Hchoices) as (c & Hc);
    [discriminate | ].
  destruct (submit_after_graphql_failure h w Hready Hfail)
    as (cause & Hrun & _).
  exists c, cause. eexists.
  split; [exact Hc | ]. split.
  { intros ->. rewrite (replyContent_no_choice (engine h) props Hchoices) in Hc.
    congruence. }
  rewrite Hrun, Hnet. unfold restResult. rewrite Hok, Hjson, Hc.
  cbn [snd answered state update_isLoading update_messages messages
       observe started update_input log].
  split; [rewrite <- app_assoc; reflexivity | ].
  split; [reflexivity | ]. split; [reflexivity | ].
  rewrite <- !app_assoc. reflexivity.
Qed.

Lemma rest_choices_array_is_always_readable_witness :
  let h := graphql_down (replied 200 (object [("choices", JArr [])])) in
  let w := page "sk-test" "Hello" in
  exists c cause a,
    replyContent (engine h) (object [("choices", JArr [])]) = Ret c
    /\ (@nil JSON = [] -> c = JStr no_reply)
    /\ messages (state (snd (submit h w)))
       = messages (state w) ++ [userMessageAt h w; a]
    /\ role a = assistant
    /\ content a = c
    /\ log (snd (submit h w))
       = log w ++ [ Fetched (firstCall h w);
                    Warned fallback_warning cause;
                    Fetched (secondCall h w) ].
Proof.
  intros h w.
  apply (rest_choices_array_is_always_readable h w
           (r := {| status := 200;
                    json := inr (object [("choices", JArr [])]) |})
           (props := [(utf16 "choices", JArr [])]) (l := [])).
  - repeat split; vm_compute; discriminate.
  - apply (bad_status {| status := 500; json := inr JNull |}). reflexivity.
  - reflexivity.
  - reflexivity.
  - reflexivity.
  - reflexivity.
Defined.

(** ** The controls *)

Lemma sendDisabled_true s :
  sendDisabled s = true -> trim (input s) = [] \/ isLoading s = true.
Proof.
  unfold sendDisabled. intro H. apply orb_true_iff in H as [H | H].
  - left. destruct (trim (input s)); [reflexivity | discriminate].
  - right. exact H.
Qed.

Lemma sendDisabled_false s :
  sendDisabled s = false -> trim (input s) <> [] /\ isLoading s = false.
Proof.
  unfold sendDisabled. intro H. apply orb_false_iff in H as [Hin Hload].
  split; [ | exact Hload].
  intro Hblank. rewrite Hblank in Hin. discriminate.
Qed.

Lemma state_observe w o : state (observe w o) = state w.
Proof. reflexivity. Qed.

(** The state at the end of a send that passes the guards. *)
Lemma state_after_send (h : Host) (w : World) :
  ready (state w) ->
  exists a,
    role a = assistant
    /\ state (snd (submit h w))
       = {| messages := messages (state w) ++ [userMessageAt h w; a];
            input := [];
            isLoading := false;
            provider := provider (state w);
            config := config (state w) |}.
Proof.
  intro Hready. rewrite (submit_in_full h w Hready). cbn [snd].
  destruct (attemptResult h w) as [cause | data];
    match goal with
    | |- context [concluded h ?w2 ?res] =>
      destruct (state_concluded h w2 res) as (a & -> & Hrole)
    end;
    exists a; (split; [exact Hrole | ]);
    rewrite !state_observe; unfold started, update_isLoading,
      update_messages, update_input; cbn; rewrite <- app_assoc; reflexivity.
Qed.



Lemma app_longer {A} (l more : list A) : more <> [] -> l ++ more <> l.
Proof.
  intros Hmore Heq. apply Hmore.
  apply (app_inv_head l). rewrite app_nil_r. exact Heq.
Qed.

(** With no key, past the first guard, the prompt is all that happens. *)
Lemma submit_unconfigured (h : Host) (w : World) :
  trim (input (state w)) <> [] ->
  isLoading (state w) = false ->
  apiKey (currentConfigOf (state w)) = [] ->
  submit h w = (inr tt, observe w (Alerted configuration_prompt)).
Proof.
  intros Hin Hload Hkey.
  unfold submit, sendMessage, currentConfigOf in *.
  rewrite (truthy_string Hin), Hload, Hkey.
  destruct (provider (state w)). reflexivity.
Qed.

(** X5.  The send button and the handler agree: the button is disabled
    exactly when a call of [sendMessage] would leave everything as it
    is (state, clock and log).  While the button is enabled a click
    always leaves a trace there. *)
Theorem send_button_disabled_iff_click_is_noop (h : Host) (w : World) :
  sendDisabled (state w) = true <-> snd (submit h w) = w.
Proof.
  split.
  - intro Hdis. apply sendDisabled_true in Hdis.
    unfold submit. rewrite (first_guard_returns (engine h) (state w) Hdis).
    reflexivity.
  - intro Hsame. destruct (sendDisabled (state w)) eqn:Hdis; [reflexivity | ].
    exfalso. apply sendDisabled_false in Hdis as (Hin & Hload).
    destruct (jsstring_eq_dec (apiKey (currentConfigOf (state w))) [])
      as [Hkey | Hkey].
    + rewrite (submit_unconfigured h w Hin Hload Hkey) in Hsame.
      cbn [snd] in Hsame. apply (f_equal log) in Hsame. cbn in Hsame.
      revert Hsame. apply app_longer. discriminate.
    + destruct (state_after_send h w (conj Hin (conj Hload Hkey)))
        as (a & _ & Hstate).
      rewrite Hsame in Hstate. apply (f_equal messages) in Hstate.
      cbn in Hstate. symmetry in Hstate. revert Hstate.
      apply app_longer. discriminate.
Qed.

(** X6.  While the send button is disabled (blank input, or a send
    pending), attempts to send, however many, by clicks or by keys
    pressed in the text area, leave the session as it is. *)
Theorem attempts_do_nothing_while_disabled (h : Host) (s : Session)
    (l : list Action) :
  sendDisabled (state (world s)) = true ->
  Forall attempt l ->
  reacts h s l = s.
Proof.
  intros Hdis Hl. apply sendDisabled_true in Hdis.
  induction Hl as [ | a l Ha _ IH]; [reflexivity | ].
  cbn [reacts fold_left].
  assert (Hstay : react h s a = s).
  { destruct a as [[ | v | i o] | key shiftKey]; try contradiction;
      cbn [react step handleKeyPress].
    - rewrite (first_guard_returns (engine h) _ Hdis).
      apply dispatch_nothing.
    - unfold handleKeyPress.
      destruct (jsstring_eqb key (utf16 "Enter") && negb shiftKey);
        cbn [snd]; [rewrite (first_guard_returns (engine h) _ Hdis) | ];
        apply dispatch_nothing. }
  rewrite Hstay. exact IH.
Qed.

Lemma attempts_do_nothing_while_disabled_witness :
  let h := graphql_up "Hi there" in
  let s := step h {| world := page "sk-test" "Hello"; inflight := [] |}
             Click in
  reacts h s [Does Click; Pressed (utf16 "Enter") false; Does Click] = s.
Proof.
  intros h s.
  apply (attempts_do_nothing_while_disabled h s).
  - reflexivity.
  - repeat constructor.
Defined.

(** ** One send at a time *)








Lemma dispatch_same_others (h : Host) (p : Prog unit) (s s' : Session) others :
  world s = world s' -> dispatch h p s others = dispatch h p s' others.
Proof. unfold dispatch. intros ->. reflexivity. Qed.




(** ** Where requests go *)

Lemma graphqlAttempt_shape (E : Engine) all cfg model :
  exists k,
    graphqlAttempt E all cfg model
    = Await (graphqlCall CHAT_COMPLETION_MUTATION
               (JObj [ (utf16 "input", chatCompletionInput all model) ])
               (baseUrl cfg) (apiKey cfg)) k
    /\ forall o, Pure (k o).
Proof.
  unfold graphqlAttempt, makeGraphQLRequest. cbn [fetch bind].
  eexists. split; [reflexivity | ]. intro o. cbn beta.
  apply pure_bind.
  - apply pure_bind; [destruct o; constructor | intro response].
    destruct (negb (ok response)); [constructor | ].
    apply pure_bind; [apply settle_pure | intro result].
    apply pure_bind; [apply get_pure | intro errors].
    apply pure_bind.
    + destruct (truthy errors); [ | constructor].
      apply pure_bind; [apply get_pure | intro; apply gt_zero_pure].
    + intros [ | ]; [ | apply get_pure].
      apply pure_bind.
      * destruct errors as [[ | | | | l | ] | ];
          try constructor; apply error_messages_pure.
      * intro. apply pure_bind; [apply join_values_pure | constructor].
  - intro g. apply pure_bind; [ | constructor].
    apply optional_pure. intro d.
    apply pure_bind; [apply get_pure | intro; apply get_pure].
Qed.

Lemma makeRESTRequest_shape all cfg model :
  exists k,
    makeRESTRequest all cfg model = Await (restCall all cfg model) k
    /\ forall o, Pure (k o).
Proof.
  unfold makeRESTRequest. cbn [fetch bind].
  eexists. split; [reflexivity | ]. intro o. cbn beta.
  apply pure_bind; [destruct o; constructor | intro response].
  destruct (negb (ok response)); [constructor | apply settle_pure].
Qed.

Section AsksFor.

Variable Q : Request -> Prop.

Lemma asks_pure {A} (p : Prog A) : Pure p -> Asks Q p.
Proof. destruct 1; constructor. Qed.

Lemma asks_bind {A B} (p : Prog A) (f : A -> Prog B) :
  Asks Q p -> (forall a, Asks Q (f a)) -> Asks Q (bind p f).
Proof. intros Hp Hf. induction Hp; simpl; auto; constructor; auto. Qed.

Lemma asks_try_catch {A} (p : Prog A) (c : Thrown -> Prog A) :
  Asks Q p -> (forall e, Asks Q (c e)) -> Asks Q (try_catch p c).
Proof. intros Hp Hc. induction Hp; simpl; auto; constructor; auto. Qed.

Lemma asks_try_finally {A} (p : Prog A) (f : Prog unit) :
  Asks Q p -> Asks Q f -> Asks Q (try_finally p f).
Proof.
  intros Hp Hf. induction Hp; simpl.
  - apply asks_bind; [exact Hf | constructor].
  - apply asks_bind; [exact Hf | constructor].
  - constructor; auto.
  - constructor; auto.
Qed.

Lemma asks_perform {X} (o : Eff X) : Asks Q (perform o).
Proof. constructor. constructor. Qed.

End AsksFor.

Lemma sendMessage_asks (E : Engine) (r : AppState) :
  Asks (to_configured_endpoint (currentConfigOf r)) (sendMessage E r).
Proof.
  unfold sendMessage.
  destruct (negb _ || _); [constructor | ].
  destruct (negb _); [apply asks_perform | ].
  repeat (apply asks_bind; [apply asks_perform | intro]).
  apply asks_try_finally; [ | apply asks_perform].
  apply asks_try_catch.
  - unfold tryBlock. apply asks_bind.
    + unfold obtainData. apply asks_try_catch.
      * match goal with
        | |- context [graphqlAttempt E ?all ?cfg ?model] =>
          destruct (graphqlAttempt_shape E all cfg model) as (k & -> & Hk)
        end.
        constructor.
        -- split; [left; reflexivity | split; reflexivity].
        -- intro o. apply asks_pure, Hk.
      * intro e. apply asks_bind; [apply asks_perform | intro].
        match goal with
        | |- context [makeRESTRequest ?all ?cfg ?model] =>
          destruct (makeRESTRequest_shape all cfg model) as (k & -> & Hk)
        end.
        constructor.
        -- split; [right; reflexivity | split; reflexivity].
        -- intro o. apply asks_pure, Hk.
    + intro data. apply asks_bind; [apply asks_perform | intro t].
      apply asks_bind; [apply asks_pure, replyContent_pure | intro c].
      apply asks_bind; [apply asks_perform | intro t'].
      apply asks_perform.
  - intro e. unfold catchBlock.
    repeat (apply asks_bind; [apply asks_perform | intro]).
    apply asks_perform.
Qed.

Lemma handle_keeps_config (h : Host) {X} (o : Eff X) (w : World) :
  config (state (snd (handle h o w))) = config (state w)
  /\ provider (state (snd (handle h o w))) = provider (state w)
  /\ fetches (log (snd (handle h o w))) = fetches (log w).
Proof.
  destruct o; cbn; repeat split;
    rewrite fetches_app; cbn; apply app_nil_r.
Qed.

Lemma advance_asks (h : Host) (Q : Request -> Prop) (p : Prog unit)
    (w : World) :
  Asks Q p ->
  Forall Q (fetches (log w)) ->
  Forall Q (fetches (log (fst (advance h p w))))
  /\ config (state (fst (advance h p w))) = config (state w)
  /\ provider (state (fst (advance h p w))) = provider (state w)
  /\ forall t, snd (advance h p w) = Some t -> forall o, Asks Q (resume t o).
Proof.
  intro Hp. revert w.
  induction Hp as [a | e | X o k _ IH | req k Hreq Hk _]; intros w Hw;
    cbn [advance].
  - repeat split; [exact Hw | discriminate].
  - repeat split; [exact Hw | discriminate].
  - pose proof (handle_keeps_config h o w) as (Hc & Hp & Hf).
    destruct (handle h o w) as [x w']. cbn [snd] in Hc, Hp, Hf.
    destruct (IH x w') as (Hlog & Hc' & Hp' & Hres);
      [rewrite Hf; exact Hw | ].
    repeat split; [exact Hlog | congruence | congruence | exact Hres].
  - cbn [fst snd observe log state]. repeat split.
    + rewrite fetches_app. apply Forall_app. split; [exact Hw | ].
      constructor; [exact Hreq | constructor].
    + intros t [= <-]. exact Hk.
Qed.

Section Configured.

Variables (h : Host) (c : ProviderConfig).

Lemma dispatch_configured (p : Prog unit) (s : Session) others :
  configured_for c s ->
  Asks (to_configured_endpoint c) p ->
  Forall (fun t => forall o, Asks (to_configured_endpoint c) (resume t o))
         others ->
  configured_for c (dispatch h p s others).
Proof.
  intros (Hc & Hlog & _) Hp Hothers.
  destruct (advance_asks h (world s) Hp Hlog) as (Hlog' & Hc' & Hp' & Hres).
  unfold dispatch, configured_for.
  destruct (advance h p (world s)) as [w' t]. cbn [fst snd] in *.
  cbn [world inflight]. split; [ | split].
  - unfold currentConfigOf in *. rewrite Hc', Hp'. exact Hc.
  - exact Hlog'.
  - apply Forall_app. split; [exact Hothers | ].
    destruct t as [t | ]; cbn; constructor; auto.
Qed.

Lemma react_configured (s : Session) (a : Action) :
  configured_for c s -> configured_for c (react h s a).
Proof.
  intro Hs. pose proof Hs as (Hc & _ & Hin).
  destruct a as [[ | v | i o] | key shiftKey]; cbn [react step].
  - apply dispatch_configured; [exact Hs | | exact Hin].
    rewrite <- Hc. apply sendMessage_asks.
  - apply dispatch_configured; [exact Hs | apply asks_perform | exact Hin].
  - destruct (nth_error (inflight s) i) as [t | ] eqn:Hi; [ | exact Hs].
    apply dispatch_configured; [exact Hs | | ].
    + apply nth_error_In in Hi. rewrite Forall_forall in Hin.
      apply (Hin t Hi).
    + apply Forall_remove_nth. exact Hin.
  - apply dispatch_configured; [exact Hs | | exact Hin].
    unfold handleKeyPress. destruct (_ && _); cbn [snd]; [ | constructor].
    rewrite <- Hc. apply sendMessage_asks.
Qed.

Lemma reacts_configured (l : list Action) (s : Session) :
  configured_for c s -> configured_for c (reacts h s l).
Proof.
  revert s. induction l as [ | a l IH]; intros s Hs; [exact Hs | ].
  cbn [reacts fold_left]. apply IH. apply react_configured. exact Hs.
Qed.

Lemma reacts_requests (l : list Action) (s : Session) :
  currentConfigOf (state (world s)) = c ->
  fetches (log (world s)) = [] ->
  inflight s = [] ->
  Forall (to_configured_endpoint c) (fetches (log (world (reacts h s l)))).
Proof.
  intros Hc Hlog Hidle.
  apply (@reacts_configured l s).
  split; [exact Hc | ]. rewrite Hlog, Hidle. split; constructor.
Qed.

End Configured.

(** X8.  Whatever the user and the network do from the moment the page
    is loaded, every request the page makes is a POST of JSON to
    [{base}/graphql] or [{base}/chat/completions], with [Bearer {key}]
    as authorization, where [base] and [key] are those read from the
    environment when the page was loaded (the OpenAI address and the
    empty key by default). *)
Theorem requests_go_to_the_configured_endpoint (h : Host)
    (env : ImportMetaEnv) (l : list Action) (req : Request) :
  In req (fetches (log (world (reacts h (boot env) l)))) ->
  to_configured_endpoint
    {| apiKey := env_or (VITE_OPENAI_API_KEY env) [];
       baseUrl := env_or (VITE_OPENAI_BASE_URL env)
                         (utf16 "https://api.openai.com/v1") |}
    req.
Proof.
  intro Hin.
  pose proof (@reacts_requests h _ l (boot env) eq_refl eq_refl eq_refl)
    as Hall.
  rewrite Forall_forall in Hall. apply (Hall req Hin).
Qed.

Lemma requests_go_to_the_configured_endpoint_witness :
  let h := graphql_down (replied 200 (completion "Fallback reply")) in
  let env := configured in
  let l := [ Does (Typed (utf16 "Hello")); Does Click;
             Does (Settled 0 (replied 500 JNull)) ] in
  let req := restCall [ {| id := decimal 1000; role := user;
                           content := text "Hello"; timestamp := 1000 |} ]
               {| apiKey := utf16 "sk-test";
                  baseUrl := utf16 "https://api.openai.com/v1" |}
               (utf16 "gpt-3.5-turbo") in
  In req (fetches (log (world (reacts h (boot env) l))))
  /\ to_configured_endpoint
       {| apiKey := env_or (VITE_OPENAI_API_KEY env) [];
          baseUrl := env_or (VITE_OPENAI_BASE_URL env)
                            (utf16 "https://api.openai.com/v1") |}
       req.
Proof.
  intros h env l req.
  assert (Hin : In req (fetches (log (world (reacts h (boot env) l))))).
  { vm_compute. right. left. reflexivity. }
  split; [exact Hin | ].
  exact (@requests_go_to_the_configured_endpoint h env l req Hin).
Defined.

(** ** Without a key *)

Lemma sendMessage_unconfigured (E : Engine) (r : AppState) :
  apiKey (currentConfigOf r) = [] ->
  sendMessage E r = Ret tt \/ exists s, sendMessage E r = perform (Alert s).
Proof.
  intro Hkey. unfold sendMessage, currentConfigOf in *.
  destruct (negb _ || _); [left; reflexivity | ].
  rewrite Hkey. right. eexists. reflexivity.
Qed.

Lemma react_silent (h : Host) (s : Session) (a : Action) :
  silent s -> silent (react h s a).
Proof.
  intros (Hkey & Hlog & Hconv & Hidle & Hload).
  assert (Hsend : forall E,
            silent (dispatch h (sendMessage E (state (world s))) s [])).
  { intro E.
    destruct (sendMessage_unconfigured E (state (world s)) Hkey)
      as [-> | (t & ->)]; unfold dispatch, silent, conversation; cbn;
      repeat split; auto.
    apply Forall_app. split; [exact Hlog | ].
    constructor; [eexists; reflexivity | constructor]. }
  destruct a as [[ | v | i o] | key shiftKey]; cbn [react step].
  - rewrite Hidle. apply Hsend.
  - rewrite Hidle. unfold dispatch, silent, conversation in *. cbn. auto.
  - rewrite Hidle. destruct i; cbn; unfold silent; auto.
  - rewrite Hidle. unfold handleKeyPress. destruct (_ && _); cbn [snd].
    + apply Hsend.
    + unfold dispatch, silent, conversation in *. cbn. auto.
Qed.

Lemma reacts_silent (h : Host) (l : list Action) (s : Session) :
  silent s -> silent (reacts h s l).
Proof.
  revert s. induction l as [ | a l IH]; intros s Hs; [exact Hs | ].
  cbn [reacts fold_left]. apply IH. apply react_silent. exact Hs.
Qed.

Lemma alerts_are_no_fetches (l : list Observed) :
  Forall (fun o => exists t, o = Alerted t) l -> fetches l = [].
Proof.
  induction 1 as [ | o l (t & ->) _ IH]; [reflexivity | exact IH].
Qed.

(** X9.  When the page is loaded with [VITE_OPENAI_API_KEY] unset or
    empty, then whatever the user and the network do, the page never
    makes a request, the conversation stays empty and the pending flag
    is never raised: all an attempt to send can do is show the
    configuration prompt. *)
Theorem without_key_nothing_is_ever_sent (h : Host) (env : ImportMetaEnv)
    (l : list Action) :
  VITE_OPENAI_API_KEY env = None \/ VITE_OPENAI_API_KEY env = Some [] ->
  let s := reacts h (boot env) l in
  fetches (log (world s)) = []
  /\ conversation s = []
  /\ inflight s = []
  /\ isLoading (state (world s)) = false
  /\ forall o, In o (log (world s)) -> exists t, o = Alerted t.
Proof.
  intros Henv s.
  assert (Hs : silent s).
  { apply reacts_silent. unfold silent, boot, conversation. cbn.
    destruct Henv as [-> | ->]; auto. }
  destruct Hs as (_ & Hlog & Hconv & Hidle & Hload).
  split; [apply alerts_are_no_fetches; exact Hlog | ].
  repeat split; try assumption.
  rewrite Forall_forall in Hlog. exact Hlog.
Qed.

Lemma without_key_nothing_is_ever_sent_witness :
  let h := graphql_up "Hi there" in
  let env := {| VITE_OPENAI_API_KEY := None;
                VITE_OPENAI_BASE_URL := None |} in
  let s := reacts h (boot env)
             [ Does (Typed (utf16 "Hello")); Does Click;
               Pressed (utf16 "Enter") false ] in
  fetches (log (world s)) = []
  /\ conversation s = []
  /\ inflight s = []
  /\ isLoading (state (world s)) = false
  /\ forall o, In o (log (world s)) -> exists t, o = Alerted t.
Proof.
  intros h env.
  apply (without_key_nothing_is_ever_sent h env).
  left. reflexivity.
Defined.

(** ** A send is over after two replies *)

Lemma awaits_more {A} (n m : nat) (p : Prog A) :
  AwaitsAtMost n p -> n <= m -> AwaitsAtMost m p.
Proof.
  intro Hp. revert m.
  induction Hp as [n a | n e | n X o k _ IH | n req k _ IH]; intros m Hm.
  - constructor.
  - constructor.
  - constructor. intro x. apply IH. exact Hm.
  - destruct m as [ | m]; [lia | ].
    constructor. intro o. apply IH. lia.
Qed.

Lemma awaits_pure {A} (n : nat) (p : Prog A) : Pure p -> AwaitsAtMost n p.
Proof. destruct 1; constructor. Qed.

Lemma awaits_bind {A B} (n m : nat) (p : Prog A) (f : A -> Prog B) :
  AwaitsAtMost n p -> (forall a, AwaitsAtMost m (f a)) ->
  AwaitsAtMost (n + m) (bind p f).
Proof.
  intros Hp Hf.
  induction Hp as [n a | n e | n X o k _ IH | n req k _ IH]; simpl.
  - apply (awaits_more (Hf a)). lia.
  - constructor.
  - constructor. exact IH.
  - constructor. exact IH.
Qed.

Lemma awaits_try_catch {A} (n m : nat) (p : Prog A) (c : Thrown -> Prog A) :
  AwaitsAtMost n p -> (forall e, AwaitsAtMost m (c e)) ->
  AwaitsAtMost (n + m) (try_catch p c).
Proof.
  intros Hp Hc.
  induction Hp as [n a | n e | n X o k _ IH | n req k _ IH]; simpl.
  - constructor.
  - apply (awaits_more (Hc e)). lia.
  - constructor. exact IH.
  - constructor. exact IH.
Qed.

Lemma awaits_try_finally {A} (n : nat) (p : Prog A) (f : Prog unit) :
  AwaitsAtMost n p -> AwaitsAtMost 0 f -> AwaitsAtMost n (try_finally p f).
Proof.
  intros Hp Hf.
  induction Hp as [n a | n e | n X o k _ IH | n req k _ IH]; simpl.
  - apply (awaits_more (n := 0 + 0)); [ | lia].
    apply awaits_bind; [exact Hf | constructor].
  - apply (awaits_more (n := 0 + 0)); [ | lia].
    apply awaits_bind; [exact Hf | constructor].
  - constructor. exact IH.
  - constructor. exact IH.
Qed.

Lemma awaits_perform {X} (n : nat) (o : Eff X) : AwaitsAtMost n (perform o).
Proof. constructor. constructor. Qed.

Lemma sendMessage_awaits (E : Engine) (r : AppState) :
  AwaitsAtMost 2 (sendMessage E r).
Proof.
  unfold sendMessage.
  destruct (negb _ || _); [constructor | ].
  destruct (negb _); [apply awaits_perform | ].
  repeat (apply (awaits_bind (n := 0) (m := 2));
          [apply awaits_perform | intro]).
  apply awaits_try_finally; [ | apply awaits_perform].
  apply (awaits_try_catch (n := 2) (m := 0)).
  - unfold tryBlock. apply (awaits_bind (n := 2) (m := 0)).
    + unfold obtainData. apply (awaits_try_catch (n := 1) (m := 1)).
      * match goal with
        | |- context [graphqlAttempt E ?all ?cfg ?model] =>
          destruct (graphqlAttempt_shape E all cfg model) as (k & -> & Hk)
        end.
        constructor. intro o. apply awaits_pure, Hk.
      * intro e. apply (awaits_bind (n := 0) (m := 1));
          [apply awaits_perform | intro].
        match goal with
        | |- context [makeRESTRequest ?all ?cfg ?model] =>
          destruct (makeRESTRequest_shape all cfg model) as (k & -> & Hk)
        end.
        constructor. intro o. apply awaits_pure, Hk.
    + intro data.
      apply (awaits_bind (n := 0) (m := 0)); [apply awaits_perform | intro t].
      apply (awaits_bind (n := 0) (m := 0));
        [apply awaits_pure, replyContent_pure | intro c].
      apply (awaits_bind (n := 0) (m := 0)); [apply awaits_perform | intro t'].
      apply awaits_perform.
  - intro e. unfold catchBlock.
    repeat (apply (awaits_bind (n := 0) (m := 0));
            [apply awaits_perform | intro]).
    apply awaits_perform.
Qed.

Lemma settle_all_idle (h : Host) (n : nat) (s : Session) :
  inflight s = [] -> settle_all h n s = s.
Proof.
  intro Hidle. induction n as [ | n IH]; [reflexivity | ].
  cbn [settle_all]. unfold settle_next. rewrite Hidle. exact IH.
Qed.

Lemma dispatch_settles (h : Host) (n : nat) (p : Prog unit) :
  AwaitsAtMost n p ->
  forall s,
    let s' := settle_all h n (dispatch h p s []) in
    world s' = snd (run h p (world s)) /\ inflight s' = [].
Proof.
  intro Hp. induction Hp as [n a | n e | n X o k _ IH | n req k _ IH];
    intro s.
  - cbn zeta. unfold dispatch. cbn [advance app option_list run snd].
    rewrite settle_all_idle; [split | ]; reflexivity.
  - cbn zeta. unfold dispatch. cbn [advance app option_list run snd].
    rewrite settle_all_idle; [split | ]; reflexivity.
  - specialize (IH (fst (handle h o (world s)))
                   {| world := snd (handle h o (world s)); inflight := [] |}).
    unfold dispatch in *. cbn [advance run world] in *.
    destruct (handle h o (world s)) as [x w']. exact IH.
  - specialize (IH (net h (List.length (fetches (log (world s)))) req)
                   {| world := observe (world s) (Fetched req);
                      inflight := [] |}).
    cbn zeta in *. unfold dispatch in *.
    cbn [advance app option_list settle_all].
    unfold settle_next. cbn [inflight world request step nth_error resume
                             remove_nth observe log run] in *.
    unfold dispatch. cbn [world log observe].
    rewrite fetches_app, length_app.
    change (List.length (fetches [Fetched req])) with 1.
    rewrite Nat.add_1_r. cbn [pred]. exact IH.
Qed.

(** X10.  A send is over once the network has settled at most two
    requests: from an idle session, a click followed by two settlements
    by the host leaves no request in flight, and the world is the one a
    run of [sendMessage] to its end gives.  There is no retry. *)
Theorem send_is_over_after_two_settlements (h : Host) (s : Session) :
  inflight s = [] ->
  let s' := settle_all h 2 (step h s Click) in
  world s' = snd (submit h (world s)) /\ inflight s' = [].
Proof.
  intro Hidle. cbn [step]. rewrite Hidle.
  apply (dispatch_settles h (sendMessage_awaits (engine h) (state (world s)))).
Qed.

Lemma send_is_over_after_two_settlements_witness :
  let h := graphql_down (replied 200 (completion "Fallback reply")) in
  let s := {| world := page "sk-test" "Hello"; inflight := [] |} in
  let s' := settle_all h 2 (step h s Click) in
  world s' = snd (submit h (world s)) /\ inflight s' = [].
Proof.
  intros h s.
  apply (send_is_over_after_two_settlements h s).
  reflexivity.
Defined.

(** ** What is kept of the input *)

Lemma trimStart_spec (s : jsstring) :
  exists pre,
    s = pre ++ trimStart s
    /\ Forall (fun c => isWhiteSpace c = true) pre
    /\ forall c, hd_error (trimStart s) = Some c -> isWhiteSpace c = false.
Proof.
  induction s as [ | c s (pre & Heq & Hpre & Hhd)]; cbn [trimStart].
  - exists []. repeat split; [constructor | discriminate].
  - destruct (isWhiteSpace c) eqn:Hc.
    + exists (c :: pre). cbn. split; [congruence | ].
      split; [constructor; assumption | exact Hhd].
    + exists []. repeat split; [constructor | ].
      cbn. intros c' [= <-]. exact Hc.
Qed.

Lemma trimEnd_spec (s : jsstring) :
  exists post,
    s = trimEnd s ++ post
    /\ Forall (fun c => isWhiteSpace c = true) post
    /\ forall c, hd_error (rev (trimEnd s)) = Some c -> isWhiteSpace c = false.
Proof.
  unfold trimEnd. destruct (trimStart_spec (rev s)) as (pre & Heq & Hpre & Hhd).
  exists (rev pre). rewrite rev_involutive. split; [ | split].
  - rewrite <- rev_app_distr, <- Heq. symmetry. apply rev_involutive.
  - apply Forall_rev. exact Hpre.
  - exact Hhd.
Qed.

(** [trim] removes white space from both ends, and nothing else. *)
Lemma trim_spec (s : jsstring) :
  exists pre post,
    s = pre ++ trim s ++ post
    /\ Forall (fun c => isWhiteSpace c = true) pre
    /\ Forall (fun c => isWhiteSpace c = true) post
    /\ (forall c, hd_error (trim s) = Some c -> isWhiteSpace c = false)
    /\ (forall c, hd_error (rev (trim s)) = Some c -> isWhiteSpace c = false).
Proof.
  unfold trim.
  destruct (trimStart_spec s) as (pre & Hs & Hpre & Hhd).
  destruct (trimEnd_spec (trimStart s)) as (post & Ht & Hpost & Hlast).
  exists pre, post. split; [rewrite <- Ht; exact Hs | ].
  repeat split; try assumption.
  intros c Hc. apply Hhd. rewrite Ht.
  destruct (trimEnd (trimStart s)); [discriminate | exact Hc].
Qed.

(** X11.  The user message of a send holds the input less the white
    space at its two ends, and nothing else is removed: the input is the
    content between two runs of white space, and the content is not
    empty and neither starts nor ends with white space. *)
Theorem user_message_is_the_input_trimmed (h : Host) (w : World) :
  ready (state w) ->
  exists c pre post a,
    messages (state (snd (submit h w)))
    = messages (state w)
      ++ [ {| id := decimal (now h (ticks w)); role := user;
              content := JStr c; timestamp := now h (1 + ticks w) |}; a ]
    /\ input (state w) = pre ++ c ++ post
    /\ Forall (fun x => isWhiteSpace x = true) pre
    /\ Forall (fun x => isWhiteSpace x = true) post
    /\ c <> []
    /\ (forall x, hd_error c = Some x -> isWhiteSpace x = false)
    /\ (forall x, hd_error (rev c) = Some x -> isWhiteSpace x = false).
Proof.
  intro Hready.
  destruct (state_after_send h w Hready) as (a & _ & Hstate).
  destruct (trim_spec (input (state w)))
    as (pre & post & Heq & Hpre & Hpost & Hhd & Hlast).
  exists (trim (input (state w))), pre, post, a.
  rewrite Hstate. cbn [messages]. split; [reflexivity | ].
  destruct Hready as (Hin & _).
  repeat split; assumption.
Qed.

Lemma user_message_is_the_input_trimmed_witness :
  let h := graphql_up "Hi there" in
  let w := page "sk-test" "  Hello world " in
  exists c pre post a,
    messages (state (snd (submit h w)))
    = messages (state w)
      ++ [ {| id := decimal (now h (ticks w)); role := user;
              content := JStr c; timestamp := now h (1 + ticks w) |}; a ]
    /\ input (state w) = pre ++ c ++ post
    /\ Forall (fun x => isWhiteSpace x = true) pre
    /\ Forall (fun x => isWhiteSpace x = true) post
    /\ c <> []
    /\ (forall x, hd_error c = Some x -> isWhiteSpace x = false)
    /\ (forall x, hd_error (rev c) = Some x -> isWhiteSpace x = false).
Proof.
  intros h w.
  apply (user_message_is_the_input_trimmed h w).
  repeat split; vm_compute; discriminate.
Defined.

(** ** Identifiers and timestamps *)

Lemma utf16_plain (s : string) :
  Forall (fun a => (N_of_ascii a < 128)%N) (list_ascii_of_string s) ->
  ascii_string (utf16 s) = s.
Proof.
  unfold ascii_string.
  induction s as [ | a s IH]; cbn [list_ascii_of_string]; intro Hs.
  - reflexivity.
  - inversion Hs as [ | a' l Ha Hl]; subst. apply N.ltb_lt in Ha.
    replace (utf16 (String a s)) with (N_of_ascii a :: utf16 s)
      by (lazy beta iota zeta delta [utf16]; fold utf16;
          rewrite Ha; reflexivity).
    cbn [map string_of_list_ascii]. rewrite ascii_N_embedding, IH by exact Hl.
    reflexivity.
Qed.

Lemma digits_plain (d : Decimal.uint) :
  Forall (fun a => (N_of_ascii a < 128)%N)
         (list_ascii_of_string (NilEmpty.string_of_uint d)).
Proof.
  induction d; cbn [NilEmpty.string_of_uint list_ascii_of_string];
    constructor; try assumption; reflexivity.
Qed.

Lemma string_of_int_plain (d : Decimal.signed_int) :
  Forall (fun a => (N_of_ascii a < 128)%N)
         (list_ascii_of_string (NilZero.string_of_int d)).
Proof.
  assert (Hu : forall u,
            Forall (fun a => (N_of_ascii a < 128)%N)
                   (list_ascii_of_string (NilZero.string_of_uint u))).
  { intro u. unfold NilZero.string_of_uint.
    destruct u; try apply digits_plain.
    repeat constructor. }
  destruct d as [u | u]; cbn [NilZero.string_of_int list_ascii_of_string].
  - apply Hu.
  - constructor; [reflexivity | apply Hu].
Qed.

Lemma to_int_proper (z : Z) :
  Z.to_int z <> Decimal.Pos Decimal.Nil
  /\ Z.to_int z <> Decimal.Neg Decimal.Nil.
Proof.
  destruct z as [ | p | p]; cbn; split; try discriminate;
    intros [= H]; apply (DecimalPos.Unsigned.to_uint_nonnil p H).
Qed.

(** Different integers are printed differently. *)
Lemma decimal_inj (x y : Z) : decimal x = decimal y -> x = y.
Proof.
  unfold decimal. intro H. apply (f_equal ascii_string) in H.
  rewrite !utf16_plain in H by apply string_of_int_plain.
  apply (f_equal NilZero.int_of_string) in H.
  destruct (to_int_proper x) as (Hx1 & Hx2).
  destruct (to_int_proper y) as (Hy1 & Hy2).
  rewrite !NilZero.isi in H by assumption.
  injection H as H. apply DecimalZ.to_int_inj. exact H.
Qed.

(** The assistant message of a send, by the readings of the clock. *)
Lemma assistant_of_concluded (h : Host) (w2 : World) res :
  exists skipped c,
    state (concluded h w2 res)
    = update_isLoading false
        (update_messages
           (fun prev => prev ++
              [{| id := decimal (now h (skipped + ticks w2) + 1);
                  role := assistant;
                  content := c;
                  timestamp := now h (1 + skipped + ticks w2) |}])
           (state w2)).
Proof.
  unfold concluded. destruct res as [e | data];
    [ | destruct (replyContent_pure (engine h) data) as [c | e] ];
    eexists _, _; reflexivity.
Qed.

(** X12.  With a clock that does not run backwards, the two messages
    of one send have different identifiers, and the assistant message
    is not stamped earlier than the user message. *)
Theorem ids_differ_within_a_send (h : Host) (w : World) :
  ready (state w) ->
  (forall i j, i <= j -> (now h i <= now h j)%Z) ->
  exists u a,
    messages (state (snd (submit h w))) = messages (state w) ++ [u; a]
    /\ role u = user
    /\ role a = assistant
    /\ id u <> id a
    /\ (timestamp u <= timestamp a)%Z.
Proof.
  intros Hready Hclock.
  rewrite (submit_in_full h w Hready). cbn [snd].
  destruct (attemptResult h w) as [cause | data];
    match goal with
    | |- context [concluded h ?w2 ?res] =>
      destruct (assistant_of_concluded h w2 res) as (skipped & c & ->)
    end;
    exists (userMessageAt h w); eexists;
    (split; [cbn; rewrite <- app_assoc; reflexivity | ]);
    (split; [reflexivity | ]); (split; [reflexivity | ]);
    cbn [id timestamp userMessageAt observe started ticks];
    (split; [intro Hid; apply decimal_inj in Hid;
             match type of Hid with
             | now h ?i = (now h ?j + 1)%Z =>
               pose proof (Hclock i j ltac:(lia)); lia
             end
            | apply Hclock; lia ]).
Qed.

Lemma ids_differ_within_a_send_witness :
  let h := graphql_up "Hi there" in
  let w := page "sk-test" "Hello" in
  exists u a,
    messages (state (snd (submit h w))) = messages (state w) ++ [u; a]
    /\ role u = user
    /\ role a = assistant
    /\ id u <> id a
    /\ (timestamp u <= timestamp a)%Z.
Proof.
  intros h w.
  apply (ids_differ_within_a_send h w).
  - repeat split; vm_compute; discriminate.
  - intros i j _. cbn. lia.
Defined.

(** ** The older component *)

(** The [try] statement of the older component. *)
Lemma run_rest_only_try (h : Host) (r : RestOnly.AppState) (u : Message)
    (w1 : World) :
  let call := restCall (RestOnly.messages r ++ [u])
                (RestOnly.config_of (RestOnly.config r) (RestOnly.provider r))
                (RestOnly.modelNameOf (RestOnly.provider r)) in
  run h (try_finally
           (try_catch (RestOnly.tryBlock (engine h) r u) catchBlock)
           (setIsLoading false)) w1
  = (inr tt,
     concluded h (observe w1 (Fetched call))
       (restResult (net h (List.length (fetches (log w1))) call))).
Proof.
  intro call. rewrite run_try_finally, run_try_catch.
  unfold RestOnly.tryBlock. fold call. cbn [fetch bind run].
  destruct (net h (List.length (fetches (log w1))) call) as [e | resp];
    cbn [bind restResult]; [reflexivity | ].
  destruct (ok resp); cbn [negb]; [ | reflexivity].
  destruct (json resp) as [e | data]; cbn [settle bind]; [reflexivity | ].
  cbn [Date_now perform bind run handle]. rewrite run_bind.
  unfold concluded.
  destruct (replyContent_pure (engine h) data) as [x | e]; reflexivity.
Qed.

(** A send of the older component that passes the guards, in full. *)
Lemma rest_only_submit_ready (h : Host) (p : RestOnly.Provider)
    (c : RestOnly.Config) (w : World) :
  rest_only_ready p c (state w) ->
  rest_only_submit h p c w =
  (inr tt,
   concluded h (observe (started h w) (Fetched (rest_only_call h p c w)))
     (restResult (net h (List.length (fetches (log w)))
                    (rest_only_call h p c w)))).
Proof.
  intros (Hin & Hload & Hkey).
  assert (Hstart :
    rest_only_submit h p c w =
    run h (try_finally
             (try_catch (RestOnly.tryBlock (engine h)
                           (rest_only_render p c (state w))
                           (userMessageAt h w)) catchBlock)
             (setIsLoading false)) (started h w)).
  { unfold rest_only_submit, RestOnly.sendMessage, rest_only_render.
    cbn [RestOnly.input RestOnly.isLoading RestOnly.config RestOnly.provider].
    rewrite (truthy_string Hin), Hload, (truthy_string Hkey).
    reflexivity. }
  rewrite Hstart, run_rest_only_try. reflexivity.
Qed.

(** X13.  A send of the older component that passes the guards makes
    exactly one request, whatever comes back: a POST to
    [{base}/chat/completions] carrying [Bearer {key}], where [base] and
    [key] are those of the selected provider and the model is the one
    of that provider.  It appends the user message and one assistant
    message and lowers the pending flag. *)
Theorem rest_only_send_uses_the_selected_provider (h : Host)
    (p : RestOnly.Provider) (c : RestOnly.Config) (w : World) :
  rest_only_ready p c (state w) ->
  let w' := snd (rest_only_submit h p c w) in
  let req := restCall (allMessagesAt h w) (RestOnly.config_of c p)
               (match p with
                | RestOnly.openai => utf16 "gpt-3.5-turbo"
                | RestOnly.deepseek => utf16 "deepseek-chat"
                end) in
  fetches (log w') = fetches (log w) ++ [req]
  /\ url req = baseUrl (RestOnly.config_of c p) ++ utf16 "/chat/completions"
  /\ headers (init req)
     = [ (utf16 "Content-Type", utf16 "application/json");
         (utf16 "Authorization",
          utf16 "Bearer " ++ apiKey (RestOnly.config_of c p)) ]
  /\ (exists a,
        messages (state w') = messages (state w) ++ [userMessageAt h w; a]
        /\ role a = assistant)
  /\ isLoading (state w') = false.
Proof.
  intros Hready w' req. subst w'.
  rewrite (@rest_only_submit_ready h p c w Hready). cbn [snd].
  assert (Hreq : rest_only_call h p c w = req) by (destruct p; reflexivity).
  rewrite Hreq.
  split.
  { rewrite fetches_concluded. cbn [observe log started].
    rewrite fetches_app. reflexivity. }
  split; [reflexivity | ]. split; [reflexivity | ].
  match goal with
  | |- context [concluded h ?w2 ?res] =>
    destruct (state_concluded h w2 res) as (a & -> & Hrole)
  end.
  split; [ | reflexivity].
  exists a. split; [ | exact Hrole].
  cbn. rewrite <- app_assoc. reflexivity.
Qed.

Lemma rest_only_send_uses_the_selected_provider_witness :
  let h := scripted 1000 (replied 200 (completion "Hi there"))
                    (replied 200 (completion "Hi there")) in
  let p := RestOnly.deepseek in
  let c := RestOnly.config
             (RestOnly.initial
                {| RestOnly.VITE_OPENAI_API_KEY := Some (utf16 "sk-openai");
                   RestOnly.VITE_OPENAI_BASE_URL := None;
                   RestOnly.VITE_DEEPSEEK_API_KEY := Some (utf16 "sk-deep");
                   RestOnly.VITE_DEEPSEEK_BASE_URL := None |}) in
  let w := page "" "Hello" in
  let w' := snd (rest_only_submit h p c w) in
  let req := restCall (allMessagesAt h w) (RestOnly.config_of c p)
               (match p with
                | RestOnly.openai => utf16 "gpt-3.5-turbo"
                | RestOnly.deepseek => utf16 "deepseek-chat"
                end) in
  fetches (log w') = fetches (log w) ++ [req]
  /\ url req = baseUrl (RestOnly.config_of c p) ++ utf16 "/chat/completions"
  /\ headers (init req)
     = [ (utf16 "Content-Type", utf16 "application/json");
         (utf16 "Authorization",
          utf16 "Bearer " ++ apiKey (RestOnly.config_of c p)) ]
  /\ (exists a,
        messages (state w') = messages (state w) ++ [userMessageAt h w; a]
        /\ role a = assistant)
  /\ isLoading (state w') = false.
Proof.
  intros h p c w.
  apply (@rest_only_send_uses_the_selected_provider h p c w).
  repeat split; vm_compute; discriminate.
Defined.

Lemma state_concluded_same (h h' : Host) (w2 w2' : World) res :
  engine h' = engine h ->
  now h' = now h ->
  state w2' = state w2 ->
  ticks w2' = ticks w2 ->
  state (concluded h' w2' res) = state (concluded h w2 res)
  /\ ticks (concluded h' w2' res) = ticks (concluded h w2 res).
Proof.
  intros HE Hnow Hstate Hticks. unfold concluded. rewrite HE.
  destruct res as [e | data];
    [ | destruct (replyContent_pure (engine h) data) as [c | e] ];
    unfold failed, answered; cbn [state ticks observe];
    rewrite Hnow, Hstate, Hticks; split; reflexivity.
Qed.

(** X14.  The fallback is the older send.  When the first [try] block
    of a send throws, the component state at the end (conversation with
    identifiers and timestamps, text area, pending flag) is the one the
    older component, with OpenAI selected and the same configuration,
    reaches from the same state when its one request is settled as the
    REST request of the fallback is. *)
Theorem fallback_is_the_older_send (h : Host) (w : World)
    (c : RestOnly.Config) (cause : Thrown) :
  ready (state w) ->
  attemptResult h w = inl cause ->
  RestOnly.for_openai c = currentConfigOf (state w) ->
  let w' := snd (rest_only_submit (one_request_later h) RestOnly.openai c w) in
  state (snd (submit h w)) = state w'
  /\ ticks (snd (submit h w)) = ticks w'.
Proof.
  intros Hready Hthrows Hconfig w'. subst w'.
  rewrite (submit_in_full h w Hready), Hthrows.
  rewrite rest_only_submit_ready.
  - cbn [snd].
    assert (Hcall : rest_only_call (one_request_later h) RestOnly.openai c w
                    = secondCall h w).
    { unfold rest_only_call, secondCall. cbn [RestOnly.config_of].
      rewrite Hconfig. destruct (provider (state w)). reflexivity. }
    rewrite Hcall.
    change (net (one_request_later h) (List.length (fetches (log w)))
              (secondCall h w))
      with (secondOutcome h w).
    apply state_concluded_same; reflexivity.
  - destruct Hready as (Hin & Hload & Hkey).
    repeat split; try assumption.
    cbn [RestOnly.config_of]. rewrite Hconfig. exact Hkey.
Qed.

Lemma fallback_is_the_older_send_witness :
  let h := graphql_down (replied 200 (completion "Fallback reply")) in
  let w := page "sk-test" "Hello" in
  let c := {| RestOnly.for_openai := currentConfigOf (state w);
              RestOnly.for_deepseek :=
                {| apiKey := [];
                   baseUrl := utf16 "https://api.deepseek.com/v1" |} |} in
  let w' := snd (rest_only_submit (one_request_later h) RestOnly.openai c w) in
  state (snd (submit h w)) = state w'
  /\ ticks (snd (submit h w)) = ticks w'.
Proof.
  intros h w c.
  apply (@fallback_is_the_older_send h w c
           (Error (utf16 "HTTP error! status: 500"))).
  - repeat split; vm_compute; discriminate.
  - vm_compute. reflexivity.
  - reflexivity.
Defined.

(** ** What later requests carry *)

(** X15.  An error message stays in the history.  After a send whose
    two calls failed, the next send that passes the guards puts the
    whole conversation in its request, the error message of the failed
    send included, as an assistant message, between the earlier user
    message and the new one. *)
Theorem error_message_is_sent_with_the_next_request (h : Host) (w : World)
    (text v : jsstring) :
  ready (state w) ->
  GraphQLFails (firstOutcome h w) ->
  RESTFails (secondOutcome h w) text ->
  trim v <> [] ->
  let w1 := snd (submit h w) in
  let w2 := with_state w1 (update_input v (state w1)) in
  exists a,
    allMessagesAt h w2
    = messages (state w) ++ [userMessageAt h w; a; userMessageAt h w2]
    /\ role_and_content a
       = JObj [ (utf16 "role", JStr (utf16 "assistant"));
                (utf16 "content", JStr (error_prefix ++ text)) ]
    /\ In (firstCall h w2) (fetches (log (snd (submit h w2))))
    /\ body (init (firstCall h w2))
       = JObj [ (utf16 "query", JStr CHAT_COMPLETION_MUTATION);
                (utf16 "variables",
                 JObj [ (utf16 "input",
                         chatCompletionInput
                           (messages (state w)
                            ++ [userMessageAt h w; a; userMessageAt h w2])
                           (utf16 "gpt-3.5-turbo")) ]) ].
Proof.
  intros Hready Hgraphql Hrest Hv w1 w2.
  destruct (submit_after_graphql_failure h w Hready Hgraphql)
    as (cause & Hrun & _).
  destruct (RESTFails_result Hrest) as (e & Hres & Htext).
  assert (Hw1 : exists a,
            state w1
            = {| messages := messages (state w) ++ [userMessageAt h w; a];
                 input := []; isLoading := false;
                 provider := provider (state w);
                 config := config (state w) |}
            /\ role a = assistant
            /\ content a = JStr (error_prefix ++ text)).
  { subst w1. rewrite Hrun, Hres. cbn [snd]. eexists. split; [ | split].
    - unfold failed, answered, started, update_isLoading, update_messages,
        update_input. cbn. rewrite <- app_assoc. reflexivity.
    - reflexivity.
    - cbn [content]. rewrite Htext. reflexivity. }
  destruct Hw1 as (a & Hstate & Hrole & Hcontent).
  assert (Hmessages : allMessagesAt h w2
            = messages (state w)
              ++ [userMessageAt h w; a; userMessageAt h w2]).
  { unfold allMessagesAt. subst w2.
    cbn [with_state state update_input messages].
    rewrite Hstate. cbn [messages]. rewrite <- app_assoc. reflexivity. }
  assert (Hready2 : ready (state w2)).
  { subst w2. cbn [with_state state]. rewrite Hstate.
    destruct Hready as (_ & _ & Hkey).
    repeat split; [exact Hv | exact Hkey]. }
  exists a. split; [exact Hmessages | ]. split.
  { unfold role_and_content. rewrite Hrole, Hcontent. reflexivity. }
  split.
  { rewrite (submit_in_full h w2 Hready2). cbn [snd].
    destruct (attemptResult h w2); rewrite fetches_concluded;
      cbn [observe log]; rewrite !fetches_app; cbn [fetches flat_map app];
      rewrite ?app_nil_r, ?in_app_iff; cbn [In]; tauto. }
  unfold firstCall, graphqlCall, POST. cbn [init body]. rewrite Hmessages.
  subst w2. cbn [with_state state update_input provider]. rewrite Hstate.
  cbn [provider]. destruct (provider (state w)). reflexivity.
Qed.

Lemma error_message_is_sent_with_the_next_request_witness :
  let h := graphql_down (replied 503 JNull) in
  let w := page "sk-test" "Hello" in
  let text := utf16 "HTTP error! status: " ++ decimal (Z.of_N 503) in
  let v := utf16 "Are you there?" in
  let w1 := snd (submit h w) in
  let w2 := with_state w1 (update_input v (state w1)) in
  exists a,
    allMessagesAt h w2
    = messages (state w) ++ [userMessageAt h w; a; userMessageAt h w2]
    /\ role_and_content a
       = JObj [ (utf16 "role", JStr (utf16 "assistant"));
                (utf16 "content", JStr (error_prefix ++ text)) ]
    /\ In (firstCall h w2) (fetches (log (snd (submit h w2))))
    /\ body (init (firstCall h w2))
       = JObj [ (utf16 "query", JStr CHAT_COMPLETION_MUTATION);
                (utf16 "variables",
                 JObj [ (utf16 "input",
                         chatCompletionInput
                           (messages (state w)
                            ++ [userMessageAt h w; a; userMessageAt h w2])
                           (utf16 "gpt-3.5-turbo")) ]) ].
Proof.
  intros h w text v.
  apply (@error_message_is_sent_with_the_next_request h w text v).
  - repeat split; vm_compute; discriminate.
  - apply (bad_status {| status := 500; json := inr JNull |}). reflexivity.
  - apply (rest_bad_status {| status := 503; json := inr JNull |}). reflexivity.
  - vm_compute. discriminate.
Defined.
